(** * HMSRoomSetup: event handlers of the room-setup component

    A shallow embedding of [HMSRoomSetup.tsx] and [HMSPreviewJoinButton.tsx].
    The component is a closure over its imports; the Section below plays
    that role, with the imports whose bodies live in other files of the
    package ([hooks-util], [hooks-util-selectors], [utils/types]) as
    Variables.  Handlers are pure functions from the snapshot they read to
    the list of effects they perform, in program order. *)

From stdpp Require Import base decidable option list gmap strings pretty.
From Stdlib Require Import ZArith Lia.

Local Open Scope Z_scope.
Local Open Scope string_scope.
Local Open Scope list_scope.

#[local] Set Warnings "-clear-no-such-hyp".

(** ** SDK data: the fields the handlers read *)

Record HMSTrack := mkTrack {
  trackId : string;
  isMute : bool
}.

Record HMSRole := mkRole {
  roleName : string
}.

Record HMSPeer := mkPeer {
  peerID : string;
  peerName : string;
  role : option HMSRole;
  videoTrack : option HMSTrack
}.

Record HMSRoom := mkRoom {
  roomId : string;
  localPeer : HMSPeer
}.

Record HMSException := mkException {
  code : Z;
  description : string;
  isTerminal : bool
}.

Record HMSPoll := mkPoll {
  pollId : string;
  createdBy : option HMSPeer;
  startedAt : option Z   (* Date, as milliseconds since the epoch *)
}.

Inductive HMSPollUpdateType := started | stopped | resultsUpdated.

Inductive HMSWhiteboardUpdateType := STARTED | STOPPED.

Record HMSWhiteboard := mkWhiteboard {
  whiteboardId : string
}.

Inductive HMSUpdateListenerActions :=
  ON_ERROR | ON_PREVIEW | ON_JOIN | ON_PERMISSIONS_REQUESTED.

Inductive Chat_ChatState := CHAT_STATE_OPEN | CHAT_STATE_CLOSE.

#[global] Instance HMSPollUpdateType_eq_dec : EqDecision HMSPollUpdateType.
Proof. solve_decision. Defined.

#[global] Instance HMSWhiteboardUpdateType_eq_dec :
  EqDecision HMSWhiteboardUpdateType.
Proof. solve_decision. Defined.

#[global] Instance Chat_ChatState_eq_dec : EqDecision Chat_ChatState.
Proof. solve_decision. Defined.

#[global] Instance HMSUpdateListenerActions_eq_dec :
  EqDecision HMSUpdateListenerActions.
Proof. solve_decision. Defined.

Definition HMSUpdateListenerActions_index (a : HMSUpdateListenerActions) : nat :=
  match a with
  | ON_ERROR => 0
  | ON_PREVIEW => 1
  | ON_JOIN => 2
  | ON_PERMISSIONS_REQUESTED => 3
  end%nat.

Definition HMSUpdateListenerActions_of_index (n : nat)
    : HMSUpdateListenerActions :=
  match n with
  | 0 => ON_ERROR
  | 1 => ON_PREVIEW
  | 2 => ON_JOIN
  | _ => ON_PERMISSIONS_REQUESTED
  end%nat.

#[global] Instance HMSUpdateListenerActions_countable :
  Countable HMSUpdateListenerActions :=
  inj_countable' HMSUpdateListenerActions_index
                 HMSUpdateListenerActions_of_index
                 (fun a => match a with
                           | ON_ERROR | ON_PREVIEW | ON_JOIN
                           | ON_PERMISSIONS_REQUESTED => eq_refl
                           end).

(** ** Application types ([./types], [./utils/types]) *)

(** Modelled from the spec: the declaration of [MeetingState] is in
    [./types], which is not part of the sources at hand.  The component
    compares against [IN_PREVIEW], [IN_MEETING] and [MEETING_ENDED];
    [NOT_JOINED] stands for the remaining, implicit state in which the
    render function shows the loading indicator or an empty view. *)
Inductive MeetingState := NOT_JOINED | IN_PREVIEW | IN_MEETING | MEETING_ENDED.

#[global] Instance MeetingState_eq_dec : EqDecision MeetingState.
Proof. solve_decision. Defined.

Inductive NotificationTypes := ERROR | TERMINAL_ERROR | POLLS_AND_QUIZZES.

#[global] Instance NotificationTypes_eq_dec : EqDecision NotificationTypes.
Proof. solve_decision. Defined.

Inductive OnLeaveReason := LEAVE | NETWORK_ISSUES.

Record PeerTrackNode := mkNode {
  peer : HMSPeer;
  track : option HMSTrack
}.

(** The three shapes of [Notification] the component builds. *)
Inductive Notification :=
| TerminalErrorNotification (id : string) (exception : HMSException)
| ErrorNotification (id : string) (title : string)
| PollNotification (id : string) (poll : HMSPoll)
    (pollUpdateType : HMSPollUpdateType).

Definition notificationType (n : Notification) : NotificationTypes :=
  match n with
  | TerminalErrorNotification _ _ => TERMINAL_ERROR
  | ErrorNotification _ _ => ERROR
  | PollNotification _ _ _ => POLLS_AND_QUIZZES
  end.

(** ** Redux actions ([./redux/actions]) *)

Inductive Action :=
| addCuedPollId (id : string)
| addNotification (n : Notification)
| addPoll (p : HMSPoll)
| changeMeetingState (s : MeetingState)
| changeStartingHLSStream (b : bool)
| setHMSLocalPeerState (p : HMSPeer)
| setHMSRoomState (r : HMSRoom)
| setInitialRole (r : HMSRole)
| setLocalPeerTrackNode (n : PeerTrackNode)
| setMiniViewPeerTrackNode (n : PeerTrackNode)
| setWhiteboard (w : option HMSWhiteboard)
| updateLocalPeerTrackNode (p : HMSPeer) (t : option HMSTrack)
| SET_SHOW_CHAT_VIEW (showChatView : bool).

(** ** Effects a handler performs *)

(** What the single, destructive 'Leave' button of an alert calls. *)
Inductive LeaveCall :=
| leave (reason : OnLeaveReason)
| destroy (reason : OnLeaveReason).

Inductive Effect :=
| Dispatch (a : Action)
| SetLoading (b : bool)
| SetPeerTrackNodes (f : list PeerTrackNode -> list PeerTrackNode)
| ClearConfig
| AlertAlert (title message : string) (onPress : LeaveCall)
    (* Alert.alert(..., [{ text: 'Leave' }], { cancelable: false }) *)
| ToastShowWithGravity (message : string)      (* Toast.LONG, Toast.TOP *)
| StartHLSStreaming                            (* hmsInstance.startHLSStreaming() *)
| SendHLSTimedMetadata (duration : Z) (payload : string).

(** State held by the component and the store, as far as the effects of
    the handlers change it. *)

Definition peerTrackNodesAfter (nodes : list PeerTrackNode)
    (effects : list Effect) : list PeerTrackNode :=
  foldl (fun ns e => match e with SetPeerTrackNodes f => f ns | _ => ns end)
        nodes effects.

Definition loadingAfter (loading : bool) (effects : list Effect) : bool :=
  foldl (fun l e => match e with SetLoading b => b | _ => l end)
        loading effects.

Definition dispatched (effects : list Effect) : list Action :=
  omap (fun e => match e with Dispatch a => Some a | _ => None end) effects.

(** Modelled from the spec: the reducers are in [./redux], which is not
    part of the sources at hand.  [changeMeetingState] sets the meeting
    state of the store; no other action touches it. *)
Definition meetingStateReducer (s : MeetingState) (a : Action) : MeetingState :=
  match a with
  | changeMeetingState s' => s'
  | _ => s
  end.

(** Modelled from the spec: [addPoll] updates the poll object in the
    store, keyed by its poll id; no other action dispatched here touches
    the polls. *)
Definition pollsReducer (polls : gmap string HMSPoll) (a : Action)
    : gmap string HMSPoll :=
  match a with
  | addPoll p => <[pollId p := p]> polls
  | _ => polls
  end.

Definition meetingStateAfter (s : MeetingState) (effects : list Effect)
    : MeetingState :=
  foldl meetingStateReducer s (dispatched effects).

Definition pollsAfter (polls : gmap string HMSPoll) (effects : list Effect)
    : gmap string HMSPoll :=
  foldl pollsReducer polls (dispatched effects).

(** ** [./peerTrackNodeUtils] and [createPeerTrackNode] *)

Definition samePeer (n : PeerTrackNode) (p : HMSPeer) : bool :=
  bool_decide (peerID (peer n) = peerID p).

Definition sameTrack (n : PeerTrackNode) (t : HMSTrack) : bool :=
  match track n with
  | Some t' => bool_decide (trackId t' = trackId t)
  | None => false
  end.

(** Modelled from the spec: [createPeerTrackNode] is in [./utils/functions],
    not part of the sources at hand.  A node identifies a (peer, track)
    pair for rendering. *)
Definition createPeerTrackNode (p : HMSPeer) (t : option HMSTrack)
    : PeerTrackNode :=
  {| peer := p; track := t |}.

(** Modelled from the spec: [./peerTrackNodeUtils] is not part of the
    sources at hand.  A node for the same peer and track already exists. *)
Definition peerTrackNodeExistForPeerAndTrack (nodes : list PeerTrackNode)
    (p : HMSPeer) (t : HMSTrack) : bool :=
  existsb (fun n => samePeer n p && sameTrack n t) nodes.

(** Modelled from the spec: a node for the same peer exists. *)
Definition peerTrackNodeExistForPeer (nodes : list PeerTrackNode)
    (p : HMSPeer) : bool :=
  existsb (fun n => samePeer n p) nodes.

(** Modelled from the spec: the node for the same peer and track is
    replaced in place by the node of the given peer and track. *)
Definition replacePeerTrackNodesWithTrack (nodes : list PeerTrackNode)
    (p : HMSPeer) (t : HMSTrack) : list PeerTrackNode :=
  (fun n => if samePeer n p && sameTrack n t
            then {| peer := p; track := Some t |} else n) <$> nodes.

(** Modelled from the spec: the nodes of the same peer are replaced in
    place; the function receives the peer only, so each keeps its track. *)
Definition replacePeerTrackNodes (nodes : list PeerTrackNode) (p : HMSPeer)
    : list PeerTrackNode :=
  (fun n => if samePeer n p
            then {| peer := p; track := track n |} else n) <$> nodes.

(** The (peer, track) combination a node stands for. *)
Definition nodeKey (n : PeerTrackNode) : string * option string :=
  (peerID (peer n), trackId <$> track n).

(** At most one node per (peer, track) combination. *)
Definition uniquePeerTrack (nodes : list PeerTrackNode) : Prop :=
  NoDup (nodeKey <$> nodes).

#[global] Instance uniquePeerTrack_dec nodes : Decision (uniquePeerTrack nodes).
Proof. unfold uniquePeerTrack. apply _. Defined.

(** JavaScript truthiness of an optional boolean flag. *)
Definition truthy (b : option bool) : bool := default false b.

(** [a || b] on strings: the empty string is falsy. *)
Definition orElse (a b : string) : string :=
  if bool_decide (a = "") then b else a.

(** ** Reading a property of the polls object

    The polls of the store are an object keyed by poll id, read as
    [pollsData[poll.pollId]].  Such a read finds a property of the object
    itself or, failing that, one the object inherits from
    [Object.prototype]. *)

(** The names of the members of [Object.prototype]: those of the
    language and its legacy accessors. *)
Definition Object_prototype : list string :=
  ["constructor"; "hasOwnProperty"; "isPrototypeOf"; "propertyIsEnumerable";
   "toLocaleString"; "toString"; "valueOf"; "__proto__";
   "__defineGetter__"; "__defineSetter__";
   "__lookupGetter__"; "__lookupSetter__"].

(** What a property read gives: a poll of the object itself, or an
    inherited member.  Both are truthy; [None] is [undefined]. *)
Inductive Property :=
| OwnPoll (poll : HMSPoll)
| Inherited (name : string).

Definition getProperty (object : gmap string HMSPoll) (key : string)
    : option Property :=
  match object !! key with
  | Some poll => Some (OwnPoll poll)
  | None =>
      if bool_decide (key ∈ Object_prototype) then Some (Inherited key)
      else None
  end.

(** ** Layout configuration, as far as the join handler reads it *)

Record GridLayout := mkGrid {
  enable_local_tile_inset : option bool
}.

Record VideoTileLayout := mkVideoTileLayout {
  grid : option GridLayout
}.

Record ChatLayout := mkChatLayout {
  is_overlay : option bool;
  initial_state : option Chat_ChatState
}.

Record PreviewData := mkPreviewData {
  room : HMSRoom;
  previewTracks : list HMSTrack
}.

(** The store snapshot [reduxStore.getState()], as far as it is read;
    [LayoutConfig] is the type of the layout configuration it holds. *)
Record RootState (LayoutConfig : Type) := mkRootState {
  app_localPeerTrackNode : option PeerTrackNode;
  app_meetingState : MeetingState;
  hmsStates_layoutConfig : LayoutConfig;
  hmsStates_localPeer : option HMSPeer;
  polls_polls : gmap string HMSPoll;
  user_userName : string
}.

Arguments mkRootState {LayoutConfig}.
Arguments app_localPeerTrackNode {LayoutConfig}.
Arguments app_meetingState {LayoutConfig}.
Arguments hmsStates_layoutConfig {LayoutConfig}.
Arguments hmsStates_localPeer {LayoutConfig}.
Arguments polls_polls {LayoutConfig}.
Arguments user_userName {LayoutConfig}.

(** ** Listener registration over the component's life

    Every listener effect of the component registers on the SDK when it
    runs and returns a cleanup.  React runs an effect after mount and
    after a render in which its dependencies changed, the cleanup of the
    previous run first, and runs every pending cleanup on unmount. *)

Module Lifecycle.

(** What the SDK holds: the actions with a listener attached, and the
    live subscriptions of the interactivity center. *)
Record SDK := mkSDK {
  eventListeners : gset HMSUpdateListenerActions;
  subscriptions : gset nat;
  nextSubscription : nat
}.

Definition emptySDK : SDK := mkSDK ∅ ∅ 0%nat.

Definition addEventListener (a : HMSUpdateListenerActions) (sdk : SDK) : SDK :=
  mkSDK ({[a]} ∪ eventListeners sdk) (subscriptions sdk) (nextSubscription sdk).

Definition removeEventListener (a : HMSUpdateListenerActions) (sdk : SDK)
    : SDK :=
  mkSDK (eventListeners sdk ∖ {[a]}) (subscriptions sdk) (nextSubscription sdk).

(** [addPollUpdateListener] and [addWhiteboardUpdateListener] return a
    subscription object; [i] identifies it. *)
Definition addUpdateListener (sdk : SDK) : SDK * nat :=
  let i := nextSubscription sdk in
  (mkSDK (eventListeners sdk) ({[i]} ∪ subscriptions sdk) (S i), i).

Definition subscription_remove (i : nat) (sdk : SDK) : SDK :=
  mkSDK (eventListeners sdk) (subscriptions sdk ∖ {[i]}) (nextSubscription sdk).

(** The function an effect returns. *)
Inductive Cleanup :=
| RemoveEventListener (a : HMSUpdateListenerActions)
| SubscriptionRemove (i : nat).

#[global] Instance Cleanup_eq_dec : EqDecision Cleanup.
Proof. solve_decision. Defined.

(** The listener effects of the component, in the order of the source. *)
Inductive ListenerEffect :=
| ErrorListener | PreviewListener | JoinListener
| PermissionsListener | PollListener | WhiteboardListener.

Definition setup (e : ListenerEffect) (sdk : SDK) : SDK * Cleanup :=
  match e with
  | ErrorListener =>
      (addEventListener ON_ERROR sdk, RemoveEventListener ON_ERROR)
  | PreviewListener =>
      (addEventListener ON_PREVIEW sdk, RemoveEventListener ON_PREVIEW)
  | JoinListener =>
      (addEventListener ON_JOIN sdk, RemoveEventListener ON_JOIN)
  | PermissionsListener =>
      (addEventListener ON_PERMISSIONS_REQUESTED sdk,
       RemoveEventListener ON_PERMISSIONS_REQUESTED)
  | PollListener =>
      let '(sdk', i) := addUpdateListener sdk in (sdk', SubscriptionRemove i)
  | WhiteboardListener =>
      let '(sdk', i) := addUpdateListener sdk in (sdk', SubscriptionRemove i)
  end.

(** The permissions listener exists on Android only. *)
Definition listenerEffects (android : bool) : list ListenerEffect :=
  [ErrorListener; PreviewListener; JoinListener]
  ++ (if android then [PermissionsListener] else [])
  ++ [PollListener; WhiteboardListener].

Definition runCleanup (sdk : SDK) (c : Cleanup) : SDK :=
  match c with
  | RemoveEventListener a => removeEventListener a sdk
  | SubscriptionRemove i => subscription_remove i sdk
  end.

(** A mounted component: each effect with the cleanup of its last run. *)
Definition Mounted := list (ListenerEffect * Cleanup).

Fixpoint runEffects (es : list ListenerEffect) (sdk : SDK) : SDK * Mounted :=
  match es with
  | [] => (sdk, [])
  | e :: es' =>
      let '(sdk1, c) := setup e sdk in
      let '(sdk2, m) := runEffects es' sdk1 in
      (sdk2, (e, c) :: m)
  end.

Definition mount (android : bool) (sdk : SDK) : SDK * Mounted :=
  runEffects (listenerEffects android) sdk.

(** The effects whose dependencies changed run again. *)
Fixpoint rerunEffects (changed : ListenerEffect -> bool) (m : Mounted)
    (sdk : SDK) : SDK * Mounted :=
  match m with
  | [] => (sdk, [])
  | (e, c) :: m' =>
      if changed e then
        let '(sdk1, c') := setup e sdk in
        let '(sdk2, m2) := rerunEffects changed m' sdk1 in
        (sdk2, (e, c') :: m2)
      else
        let '(sdk2, m2) := rerunEffects changed m' sdk in
        (sdk2, (e, c) :: m2)
  end.

(** A render: the cleanups of the changed effects, then their setups. *)
Definition rerender (st : SDK * Mounted) (changed : ListenerEffect -> bool)
    : SDK * Mounted :=
  let '(sdk, m) := st in
  let stale := snd <$> filter (fun ec => changed (fst ec) = true) m in
  rerunEffects changed m (foldl runCleanup sdk stale).

Definition unmount (st : SDK * Mounted) : SDK :=
  let '(sdk, m) := st in foldl runCleanup sdk (snd <$> m).

(** A whole life: mount, any number of renders, unmount. *)
Definition lifetime (android : bool)
    (renders : list (ListenerEffect -> bool)) : SDK :=
  unmount (foldl rerender (mount android emptySDK) renders).

(** Every live registration has a pending cleanup that removes it. *)
Definition covered (cs : list Cleanup) (sdk : SDK) : Prop :=
  (forall a, a ∈ eventListeners sdk -> RemoveEventListener a ∈ cs)
  /\ (forall i, i ∈ subscriptions sdk -> SubscriptionRemove i ∈ cs).

End Lifecycle.

(** ** Calling the preview or join API automatically *)

Module AutoInit.

Inductive InitCall := updateConfig_randomUserId | joinMeeting | previewMeeting.

#[global] Instance InitCall_eq_dec : EqDecision InitCall.
Proof. solve_decision. Defined.

(** What one run of the effect sees. *)
Record Run := mkRun {
  meetingEnded : bool;
  getConfig_resolves : bool;             (* await getConfig() *)
  skipPreview : bool;                    (* getJoinConfig().skipPreview *)
  skip_preview_screen : option bool;     (* of layoutConfig?.[0], if any *)
  username : string                      (* hmsConfig.username *)
}.

Definition handleMeetingPreviewOrJoin (r : Run) : list InitCall :=
  if getConfig_resolves r then
    if skipPreview r || truthy (skip_preview_screen r) then
      (if bool_decide (username r = "") then [updateConfig_randomUserId]
       else [])
      ++ [joinMeeting]
    else [previewMeeting]
  else [].

(** One run of the effect on the ref [didInitMeetingAction]. *)
Definition autoInitEffect (didInitMeetingAction : bool) (r : Run)
    : bool * list InitCall :=
  if negb (meetingEnded r) && negb didInitMeetingAction then
    (true, handleMeetingPreviewOrJoin r)
  else (didInitMeetingAction, []).

Fixpoint runs (didInitMeetingAction : bool) (rs : list Run)
    : bool * list InitCall :=
  match rs with
  | [] => (didInitMeetingAction, [])
  | r :: rs' =>
      let '(d, calls) := autoInitEffect didInitMeetingAction r in
      let '(d', calls') := runs d rs' in
      (d', calls ++ calls')
  end.

Definition isInitiation (c : InitCall) : bool :=
  match c with
  | joinMeeting | previewMeeting => true
  | updateConfig_randomUserId => false
  end.

Definition initiations (calls : list InitCall) : nat :=
  length (List.filter isInitiation calls).

End AutoInit.

(** ** [HMSPreviewJoinButton] *)

Module HMSPreviewJoinButton.

Inductive IconStyle := disabledLiveIcon | activeLiveIcon.

Inductive TestId := go_live_btn | join_now_btn.

(** The props handed to [HMSPrimaryButton]. *)
Record PrimaryButtonProps := mkProps {
  testId : TestId;
  loading : bool;
  title : string;
  disabled : bool;
  leftComponent : option IconStyle
}.

Definition userNameInvalid (userName : string) : bool :=
  (String.length userName <=? 0)%nat.

Definition render (userName : string) (shouldGoLive : bool)
    (goLiveBtnLabel joinTitle : string) (loading : bool)
    : PrimaryButtonProps :=
  let disabledJoin := userNameInvalid userName || loading in
  {| testId := if shouldGoLive then go_live_btn else join_now_btn;
     loading := loading;
     title := if shouldGoLive then goLiveBtnLabel else joinTitle;
     disabled := disabledJoin;
     leftComponent :=
       if shouldGoLive
       then Some (if disabledJoin then disabledLiveIcon else activeLiveIcon)
       else None |}.

End HMSPreviewJoinButton.

(** ** Join and preview attempts, and going live

    [joinMeeting], [previewMeeting] and [startHLSStreaming] make calls
    that may fail; the outcome of each call is an input.  A call that is
    awaited fails into the [catch] block however it fails.  The calls of
    [join] and [preview] on the SDK are not awaited: only an exception
    thrown by the call itself reaches the [catch] block, and a promise
    that is rejected later is seen by nobody. *)

Module Attempt.

(** What the [catch] blocks read of the error they get. *)
Record JsError := mkJsError {
  error_code : string;
  error_message : string
}.

Inductive Outcome (A : Type) :=
| resolved (a : A)
| rejected (error : JsError).

Arguments resolved {A}.
Arguments rejected {A}.

(** A call whose result is not awaited: it returns a promise, settled
    one way or the other after the caller has gone on, or it throws. *)
Inductive Called (A : Type) :=
| returned (promise : Outcome A)
| threw (error : JsError).

Arguments returned {A}.
Arguments threw {A}.

Record HMSConfig := mkConfig {
  config_username : string;
  authToken : string
}.

(** The calls of an attempt: effects on the component, and calls on the
    keyboard and the SDK. *)
Inductive Call :=
| Perform (e : Effect)
| Keyboard_dismiss
| hmsInstance_join (hmsConfig : HMSConfig)
| hmsInstance_preview (hmsConfig : HMSConfig)
| hmsInstance_setAlwaysScreenOn (enabled : bool).

(** The alert of a [catch] block: title and message from the error, one
    destructive 'Leave' button, not cancelable. *)
Definition alertError (error : JsError) (onPress : LeaveCall) : Call :=
  Perform (AlertAlert (error_code error) (error_message error) onPress).

Definition joinMeeting (getConfig : Outcome HMSConfig)
    (join : Called unit) (setAlwaysScreenOn : Outcome unit) : list Call :=
  [Perform (SetLoading true); Keyboard_dismiss]
  ++ match getConfig with
     | rejected error => [alertError error (leave LEAVE)]
     | resolved hmsConfig =>
         hmsInstance_join hmsConfig ::
         match join with
         | threw error => [alertError error (leave LEAVE)]
         | returned _ =>
             hmsInstance_setAlwaysScreenOn true ::
             match setAlwaysScreenOn with
             | rejected error => [alertError error (leave LEAVE)]
             | resolved _ => []
             end
         end
     end.

Definition previewMeeting (getConfig : Outcome HMSConfig)
    (preview : Called unit) : list Call :=
  Perform (SetLoading true) ::
  match getConfig with
  | rejected error => [alertError error (destroy LEAVE)]
  | resolved hmsConfig =>
      hmsInstance_preview hmsConfig ::
      match preview with
      | threw error => [alertError error (destroy LEAVE)]
      | returned _ => []
      end
  end.

(** [startHLSStreaming] with the awaited SDK call settled;
    [ignoreHLSStreamPromise] is the ref
    that the unmount effect sets, read when the promise is rejected. *)
Definition startHLSStreaming_awaited (ignoreHLSStreamPromise : bool)
    (result : Outcome unit) : list Effect :=
  Dispatch (changeStartingHLSStream true) :: StartHLSStreaming ::
  match result with
  | resolved _ => []
  | rejected _ =>
      if ignoreHLSStreamPromise then []
      else [Dispatch (changeStartingHLSStream false)]
  end.

Definition performed (calls : list Call) : list Effect :=
  omap (fun c => match c with Perform e => Some e | _ => None end) calls.

Definition isSdkCall (c : Call) : bool :=
  match c with
  | hmsInstance_join _ | hmsInstance_preview _ => true
  | _ => false
  end.

Definition isAlert (c : Call) : bool :=
  match c with
  | Perform (AlertAlert _ _ _) => true
  | _ => false
  end.

(** The value of [startingHLSStream] that the last dispatch asks for. *)
Definition lastStartingHLSStream (effects : list Effect) : option bool :=
  last (omap (fun a => match a with
                       | changeStartingHLSStream b => Some b
                       | _ => None
                       end) (dispatched effects)).

End Attempt.

(** ** What the components render *)

Module Screens.

(** [Meeting]: the content it returns and the flag it gives [useAutoPip]. *)
Inductive MeetingContent :=
| HMSHLSStreamLoading
| HLSViewerScreenContent
| MeetingScreenContent (peerTrackNodes : list PeerTrackNode).

Record MeetingRender := mkMeetingRender {
  autoPip : bool;
  content : MeetingContent
}.

Definition Meeting (startingHLSStream isHLSViewer : bool)
    (peerTrackNodes : list PeerTrackNode) : MeetingRender :=
  {| autoPip := (length peerTrackNodes =? 1)%nat;
     content :=
       if startingHLSStream then HMSHLSStreamLoading
       else if isHLSViewer then HLSViewerScreenContent
       else MeetingScreenContent peerTrackNodes |}.

(** What [HMSRoomSetup] returns under the status bar. *)
Inductive Screen :=
| Preview (loadingButtonState : bool)
| MeetingScreen (peerTrackNodes : list PeerTrackNode)
| HMSMeetingEnded
| FullScreenIndicator
| EmptyView.

Definition HMSRoomSetup_render (meetingState : MeetingState)
    (peerTrackNodes : list PeerTrackNode) (loading : bool) : Screen :=
  match meetingState with
  | IN_PREVIEW => Preview loading
  | IN_MEETING => MeetingScreen peerTrackNodes
  | MEETING_ENDED => HMSMeetingEnded
  | NOT_JOINED => if loading then FullScreenIndicator else EmptyView
  end.

(** The labels [HMSPreviewJoinButton] selects from the layout. *)
Record JoinForm := mkJoinForm {
  join_btn_label : option string;
  go_live_btn_label : option string
}.

Record JoinButtonLabels := mkLabels {
  joinBtnLabel : string;
  goLiveBtnLabel : string
}.

(** [label || fallback] for a label that may be undefined. *)
Definition labelOr (label : option string) (fallback : string) : string :=
  match label with
  | Some l => orElse l fallback
  | None => fallback
  end.

Definition joinButtonLabels (joinLayoutConfig : option JoinForm)
    : JoinButtonLabels :=
  {| joinBtnLabel :=
       labelOr (match joinLayoutConfig with
                | Some f => join_btn_label f | None => None end) "Join Now";
     goLiveBtnLabel :=
       labelOr (match joinLayoutConfig with
                | Some f => go_live_btn_label f | None => None end) "Go Live" |}.

(** The whole button: labels from the layout, the rest as rendered. *)
Definition HMSPreviewJoinButton_component (joinLayoutConfig : option JoinForm)
    (userName : string) (shouldGoLive : bool) (joinTitle : string)
    (loading : bool) : HMSPreviewJoinButton.PrimaryButtonProps :=
  HMSPreviewJoinButton.render userName shouldGoLive
    (goLiveBtnLabel (joinButtonLabels joinLayoutConfig)) joinTitle loading.

End Screens.

(** ** What a mounted component holds registered *)

Module LifecycleState.

Import Lifecycle.

(** The SDK action a listener effect listens to, if it is one of those. *)
Definition actionOf (e : ListenerEffect) : option HMSUpdateListenerActions :=
  match e with
  | ErrorListener => Some ON_ERROR
  | PreviewListener => Some ON_PREVIEW
  | JoinListener => Some ON_JOIN
  | PermissionsListener => Some ON_PERMISSIONS_REQUESTED
  | PollListener | WhiteboardListener => None
  end.

Definition subId (c : Cleanup) : option nat :=
  match c with
  | SubscriptionRemove i => Some i
  | RemoveEventListener _ => None
  end.

(** The subscriptions the pending cleanups remove. *)
Definition subIds (m : Mounted) : list nat := omap (fun ec => subId ec.2) m.

(** The cleanup is of the kind its effect returns. *)
Definition cleanupOf (ec : ListenerEffect * Cleanup) : Prop :=
  match actionOf ec.1 with
  | Some a => ec.2 = RemoveEventListener a
  | None => exists i, ec.2 = SubscriptionRemove i
  end.

(** The SDK holds exactly what the mounted effects registered: a listener
    for the action of each effect, and the subscriptions, all different,
    that the pending cleanups remove. *)
Definition registered (st : SDK * Mounted) : Prop :=
  Forall cleanupOf st.2
  /\ (forall a, a ∈ eventListeners st.1 <->
               exists e, e ∈ fst <$> st.2 /\ actionOf e = Some a)
  /\ NoDup (subIds st.2)
  /\ (forall i, i ∈ subIds st.2 -> (i < nextSubscription st.1)%nat)
  /\ (forall i, i ∈ subscriptions st.1 <-> i ∈ subIds st.2).

End LifecycleState.

(** ** Observations on states and effects *)

(** The order of the meeting states within a session. *)
Definition rank (s : MeetingState) : nat :=
  match s with
  | NOT_JOINED => 0
  | IN_PREVIEW => 1
  | IN_MEETING => 2
  | MEETING_ENDED => 3
  end.

(** The states [l], visited after [s], never move backwards. *)
Fixpoint neverBackwards (s : MeetingState) (l : list MeetingState) : Prop :=
  match l with
  | [] => True
  | s' :: l' => (rank s <= rank s')%nat /\ neverBackwards s' l'
  end.

Definition isPollNotificationFor (pid : string) (e : Effect) : bool :=
  match e with
  | Dispatch (addNotification (PollNotification _ poll _)) =>
      bool_decide (pollId poll = pid)
  | _ => false
  end.

(** How many notifications for the poll [pid] the effects queue. *)
Definition pollNotificationsFor (pid : string) (effects : list Effect) : nat :=
  length (List.filter (isPollNotificationFor pid) effects).

(** The handler shows a dialog whose button makes the call [c]. *)
Definition confirmsWith (effects : list Effect) (c : LeaveCall) : Prop :=
  exists title message, AlertAlert title message c ∈ effects.

Definition showsAlert (effects : list Effect) : Prop :=
  exists title message c, AlertAlert title message c ∈ effects.

Definition showsToast (effects : list Effect) : Prop :=
  exists message, ToastShowWithGravity message ∈ effects.

(** The effects make the rendering list longer. *)
Definition addsNode (prev : list PeerTrackNode) (effects : list Effect) : Prop :=
  (length prev < length (peerTrackNodesAfter prev effects))%nat.

Definition setsMiniView (effects : list Effect) : Prop :=
  exists n, Dispatch (setMiniViewPeerTrackNode n) ∈ effects.

(** The polls that the effects hand to the store, in order. *)
Definition addedPolls (effects : list Effect) : list HMSPoll :=
  omap (fun a => match a with addPoll p => Some p | _ => None end)
       (dispatched effects).

(** The [id] of a notification. *)
Definition notificationId (n : Notification) : string :=
  match n with
  | TerminalErrorNotification id _ => id
  | ErrorNotification id _ => id
  | PollNotification id _ _ => id
  end.

(** What the component renders from: the meeting state of the store and
    its own [peerTrackNodes] and [loading]. *)
Record Component := mkComponent {
  state_meetingState : MeetingState;
  state_peerTrackNodes : list PeerTrackNode;
  state_loading : bool
}.

Definition screen (c : Component) : Screens.Screen :=
  Screens.HMSRoomSetup_render (state_meetingState c)
    (state_peerTrackNodes c) (state_loading c).

(** The component after the calls of a join or preview attempt. *)
Definition attempt (c : Component) (calls : list Attempt.Call) : Component :=
  {| state_meetingState := state_meetingState c;
     state_peerTrackNodes := state_peerTrackNodes c;
     state_loading :=
       loadingAfter (state_loading c) (Attempt.performed calls) |}.

(** ** Sample data

    A layout that says whether its role is an HLS viewer and whether the
    local tile is inset, a publishing peer with a camera track, and an
    error of each kind, to run the handlers on. *)

Module Sample.

Record Layout := mkLayout {
  hlsViewer : bool;
  localTileInset : option bool
}.

Definition selectLayoutConfigForRole (layoutConfig : Layout)
    (r : option HMSRole) : Layout := layoutConfig.

Definition selectIsHLSViewer (r : option HMSRole) (l : Layout) : bool :=
  hlsViewer l.

Definition selectVideoTileLayoutConfig (l : Layout) : option VideoTileLayout :=
  Some (mkVideoTileLayout (Some (mkGrid (localTileInset l)))).

Definition selectChatLayoutConfig (l : Layout) : option ChatLayout := None.

Definition isPublishingAllowed (p : HMSPeer) : bool := true.

Definition selectShouldGoLive (s : RootState Layout) : bool := false.

Definition pollUpdateTypeValue (t : HMSPollUpdateType) : string :=
  match t with
  | started => "started"
  | stopped => "stopped"
  | resultsUpdated => "resultsUpdated"
  end.

Definition TerminalExceptionCodes : list Z := [4005; 1003; 2000].

Definition camera : HMSTrack := mkTrack "track-1" false.

Definition host : HMSPeer :=
  mkPeer "peer-1" "Ana" (Some (mkRole "host")) (Some camera).

Definition meetingRoom : HMSRoom := mkRoom "room-1" host.

Definition previewData : PreviewData := mkPreviewData meetingRoom [camera].

(** The store before the join, with the local tile inset as given. *)
Definition store (inset : option bool) : RootState Layout :=
  mkRootState None NOT_JOINED (mkLayout false inset) None ∅ "Ana".

Definition networkDown : HMSException :=
  mkException 4005 "Network connection lost" true.

Definition trackFailure : HMSException :=
  mkException 3001 "Cannot access camera" false.

(** A poll started at time 1000 (milliseconds). *)
Definition quiz : HMSPoll := mkPoll "poll-1" None (Some 1000).

End Sample.

(** Case analysis on every conditional of the goal, keeping the equations. *)
Ltac split_conditionals :=
  repeat match goal with
         | |- context [match ?x with _ => _ end] => destruct x eqn:?
         end.

(** ** The component *)

Section HMSRoomSetup.

(** [TerminalExceptionCodes] of [./utils/types]. *)
Variable TerminalExceptionCodes : list Z.

(** The layout configuration of the store and the layout selected for a
    role, with the selectors of [./hooks-util-selectors] and
    [isPublishingAllowed] of [./hooks-util]. *)
Variables LayoutConfig Layout : Type.
Variable selectLayoutConfigForRole : LayoutConfig -> option HMSRole -> Layout.
Variable selectIsHLSViewer : option HMSRole -> Layout -> bool.
Variable selectVideoTileLayoutConfig : Layout -> option VideoTileLayout.
Variable selectChatLayoutConfig : Layout -> option ChatLayout.
Variable isPublishingAllowed : HMSPeer -> bool.

(** The runtime value of a member of the SDK's [HMSPollUpdateType]. *)
Variable pollUpdateTypeValue : HMSPollUpdateType -> string.

Variable selectShouldGoLive : RootState LayoutConfig -> bool.

(** *** HMS error listener *)

Definition terminalError (error : HMSException) : bool :=
  isTerminal error || bool_decide (code error ∈ TerminalExceptionCodes).

Definition hmsErrorHandler (meetingState : MeetingState) (uid : string)
    (error : HMSException) : list Effect :=
  let meetingJoined := bool_decide (meetingState = IN_MEETING) in
  let previewing := bool_decide (meetingState = IN_PREVIEW) in
  if meetingJoined then
    let notificationPayload :=
      if terminalError error
      then TerminalErrorNotification uid error
      else ErrorNotification uid (description error) in
    [Dispatch (addNotification notificationPayload)]
  else
    SetLoading false ::
    (if terminalError error then
       [AlertAlert (pretty (code error))
          (orElse (description error) "Something went wrong")
          (if previewing then leave NETWORK_ISSUES
           else destroy NETWORK_ISSUES)]
     else
       [ToastShowWithGravity
          (orElse (pretty (code error) +:+ " " +:+ description error)
                  "Something went wrong")]).

(** *** HMS preview listener *)

Definition onPreviewHandler (data : PreviewData) : list Effect :=
  [SetLoading false;
   Dispatch (setHMSRoomState (room data));
   Dispatch (setHMSLocalPeerState (localPeer (room data)));
   Dispatch (changeMeetingState IN_PREVIEW)].

(** *** HMS join listener *)

Definition startHLSStreaming : list Effect :=
  [Dispatch (changeStartingHLSStream true); StartHLSStreaming].

(** The updater passed to [setPeerTrackNodes] by the join handler. *)
Definition onJoin_setPeerTrackNodes (peer : HMSPeer)
    (track : option HMSTrack) (localPeerTrackNode : PeerTrackNode)
    (enableLocalTileInset : option bool) (canCreateTile : bool)
    (prevPeerTrackNodes : list PeerTrackNode) : list PeerTrackNode :=
  match track ≫= (fun t =>
          if peerTrackNodeExistForPeerAndTrack prevPeerTrackNodes peer t
          then Some t else None) with
  | Some t => replacePeerTrackNodesWithTrack prevPeerTrackNodes peer t
  | None =>
      if peerTrackNodeExistForPeer prevPeerTrackNodes peer then
        replacePeerTrackNodes prevPeerTrackNodes peer
      else if negb (truthy enableLocalTileInset) && canCreateTile then
        localPeerTrackNode :: prevPeerTrackNodes
      else prevPeerTrackNodes
  end.

Definition enableLocalTileInsetOf (currentLayoutConfig : Layout)
    : option bool :=
  match selectVideoTileLayoutConfig currentLayoutConfig with
  | Some videoTileLayout =>
      match grid videoTileLayout with
      | Some g => enable_local_tile_inset g
      | None => None
      end
  | None => None
  end.

Definition canCreateTileOf (localPeer : HMSPeer)
    (currentLayoutConfig : Layout) : bool :=
  isPublishingAllowed localPeer
  && negb (selectIsHLSViewer (role localPeer) currentLayoutConfig).

(** The dispatches of the handler's [batch]. *)
Definition onJoin_batch (reduxState : RootState LayoutConfig)
    (data_room : HMSRoom)
    : list Effect :=
  let localPeer := localPeer data_room in
  let peer := localPeer in
  let track := videoTrack localPeer in
  let currentLayoutConfig :=
    selectLayoutConfigForRole (hmsStates_layoutConfig reduxState)
                              (role localPeer) in
  let localPeerTrackNode := createPeerTrackNode peer track in
  let enableLocalTileInset := enableLocalTileInsetOf currentLayoutConfig in
  let canCreateTile := canCreateTileOf localPeer currentLayoutConfig in
  let chatConfig := selectChatLayoutConfig currentLayoutConfig in
  let overlayChatInitialState :=
    chatConfig ≫= (fun c =>
      if truthy (is_overlay c) then initial_state c else None) in
  (if bool_decide (overlayChatInitialState = Some CHAT_STATE_OPEN)
   then [Dispatch (SET_SHOW_CHAT_VIEW true)] else [])
  ++ (if canCreateTile then
        (match app_localPeerTrackNode reduxState with
         | Some _ => [Dispatch (updateLocalPeerTrackNode peer (videoTrack peer))]
         | None => [Dispatch (setLocalPeerTrackNode localPeerTrackNode)]
         end)
        ++ (if truthy enableLocalTileInset
            then [Dispatch (setMiniViewPeerTrackNode localPeerTrackNode)]
            else [])
      else [])
  ++ [Dispatch (setHMSRoomState data_room);
      Dispatch (setHMSLocalPeerState localPeer)]
  ++ (match role localPeer with
      | Some r => [Dispatch (setInitialRole r)]
      | None => []
      end).

Definition onJoinHandler (reduxState : RootState LayoutConfig)
    (data_room : HMSRoom)
    : list Effect :=
  let localPeer := localPeer data_room in
  let peer := localPeer in
  let track := videoTrack localPeer in
  let currentLayoutConfig :=
    selectLayoutConfigForRole (hmsStates_layoutConfig reduxState)
                              (role localPeer) in
  let localPeerTrackNode := createPeerTrackNode peer track in
  let enableLocalTileInset := enableLocalTileInsetOf currentLayoutConfig in
  let canCreateTile := canCreateTileOf localPeer currentLayoutConfig in
  [ClearConfig; SetLoading false]
  ++ onJoin_batch reduxState data_room
  ++ [SetPeerTrackNodes
        (onJoin_setPeerTrackNodes peer track localPeerTrackNode
           enableLocalTileInset canCreateTile)]
  ++ (if selectShouldGoLive reduxState then startHLSStreaming else [])
  ++ [Dispatch (changeMeetingState IN_MEETING)].

(** *** Poll and whiteboard listeners *)

Definition pollNotification (poll : HMSPoll)
    (pollUpdateType : HMSPollUpdateType) : Notification :=
  PollNotification (pollId poll +:+ "--" +:+ pollUpdateTypeValue pollUpdateType)
                   poll pollUpdateType.

(** The callback given to [addPollUpdateListener]; [now] is [Date.now()]
    and [isHLSViewer] the value the effect closed over.  The test
    [!pollsData[poll.pollId]] holds when the read of the property gives
    nothing. *)
Definition onPollUpdate (isHLSViewer : bool)
    (reduxState : RootState LayoutConfig)
    (now : Z) (poll : HMSPoll) (pollUpdateType : HMSPollUpdateType)
    : list Effect :=
  let pollsData := polls_polls reduxState in
  (match createdBy poll, hmsStates_localPeer reduxState with
   | Some creator, Some lp =>
       if bool_decide (peerID creator = peerID lp)
       then [SendHLSTimedMetadata 20 ("poll:" +:+ pollId poll)] else []
   | _, _ => []
   end)
  ++ Dispatch (addPoll poll) ::
     (if bool_decide (pollUpdateType = started)
         && bool_decide (getProperty pollsData (pollId poll) = None) then
        if isHLSViewer then
          match startedAt poll with
          | Some startedAtTime =>
              if (now - startedAtTime >=? 20000)%Z then
                [Dispatch (addNotification (pollNotification poll pollUpdateType));
                 Dispatch (addCuedPollId (pollId poll))]
              else []
          | None => []
          end
        else
          [Dispatch (addNotification (pollNotification poll pollUpdateType))]
      else []).

Definition onWhiteboardUpdate (hmsWhiteboard : HMSWhiteboard)
    (updateType : HMSWhiteboardUpdateType) : list Effect :=
  [Dispatch (setWhiteboard
     (if bool_decide (updateType = STARTED) then Some hmsWhiteboard else None))].

(** *** The listeners as one event loop *)

Inductive SDKEvent :=
| OnError (uid : string) (error : HMSException)
| OnPreview (data : PreviewData)
| OnJoin (reduxState : RootState LayoutConfig) (data_room : HMSRoom)
| OnPollUpdate (isHLSViewer : bool) (reduxState : RootState LayoutConfig)
    (now : Z)
    (poll : HMSPoll) (pollUpdateType : HMSPollUpdateType)
| OnWhiteboardUpdate (hmsWhiteboard : HMSWhiteboard)
    (updateType : HMSWhiteboardUpdateType).

(** The effects of the listener for an event, registered while the
    meeting state was [meetingState]. *)
Definition handle (meetingState : MeetingState) (ev : SDKEvent)
    : list Effect :=
  match ev with
  | OnError uid error => hmsErrorHandler meetingState uid error
  | OnPreview data => onPreviewHandler data
  | OnJoin reduxState data_room => onJoinHandler reduxState data_room
  | OnPollUpdate isHLSViewer reduxState now poll pollUpdateType =>
      onPollUpdate isHLSViewer reduxState now poll pollUpdateType
  | OnWhiteboardUpdate hmsWhiteboard updateType =>
      onWhiteboardUpdate hmsWhiteboard updateType
  end.

Definition step (meetingState : MeetingState) (ev : SDKEvent)
    : MeetingState :=
  meetingStateAfter meetingState (handle meetingState ev).

(** The meeting states visited along a sequence of events. *)
Fixpoint meetingStates (meetingState : MeetingState) (evs : list SDKEvent)
    : list MeetingState :=
  match evs with
  | [] => []
  | ev :: evs' =>
      let s := step meetingState ev in s :: meetingStates s evs'
  end.

(** The rendering list along a sequence of events. *)
Fixpoint peerTrackNodesAlong (meetingState : MeetingState)
    (nodes : list PeerTrackNode) (evs : list SDKEvent)
    : list (list PeerTrackNode) :=
  match evs with
  | [] => []
  | ev :: evs' =>
      let effects := handle meetingState ev in
      let nodes' := peerTrackNodesAfter nodes effects in
      nodes' :: peerTrackNodesAlong (meetingStateAfter meetingState effects)
                                    nodes' evs'
  end.

Definition isPreview (ev : SDKEvent) : bool :=
  match ev with OnPreview _ => true | _ => false end.

Definition isJoin (ev : SDKEvent) : bool :=
  match ev with OnJoin _ _ => true | _ => false end.

(** No preview event comes after a join event. *)
Fixpoint previewsBeforeJoins (evs : list SDKEvent) : bool :=
  match evs with
  | [] => true
  | ev :: evs' =>
      (if isJoin ev then forallb (fun e => negb (isPreview e)) evs' else true)
      && previewsBeforeJoins evs'
  end.

(** *** Poll updates against the polls of the store *)

Definition withPolls (reduxState : RootState LayoutConfig)
    (polls : gmap string HMSPoll)
    : RootState LayoutConfig :=
  {| app_localPeerTrackNode := app_localPeerTrackNode reduxState;
     app_meetingState := app_meetingState reduxState;
     hmsStates_layoutConfig := hmsStates_layoutConfig reduxState;
     hmsStates_localPeer := hmsStates_localPeer reduxState;
     polls_polls := polls;
     user_userName := user_userName reduxState |}.

Record PollUpdate := mkPollUpdate {
  update_isHLSViewer : bool;
  update_reduxState : RootState LayoutConfig;   (* the rest of the store *)
  update_now : Z;
  update_poll : HMSPoll;
  update_type : HMSPollUpdateType
}.

Definition onPollUpdate_in (polls : gmap string HMSPoll) (u : PollUpdate)
    : list Effect :=
  onPollUpdate (update_isHLSViewer u)
               (withPolls (update_reduxState u) polls)
               (update_now u) (update_poll u) (update_type u).

(** The effects of a sequence of poll updates; each callback reads the
    polls the earlier ones left in the store. *)
Fixpoint pollUpdates (polls : gmap string HMSPoll) (us : list PollUpdate)
    : list Effect :=
  match us with
  | [] => []
  | u :: us' =>
      let effects := onPollUpdate_in polls u in
      effects ++ pollUpdates (pollsAfter polls effects) us'
  end.

(** *** The component between events *)

(** The component after the listener of an event has run. *)
Definition deliver (c : Component) (ev : SDKEvent) : Component :=
  let effects := handle (state_meetingState c) ev in
  {| state_meetingState := meetingStateAfter (state_meetingState c) effects;
     state_peerTrackNodes :=
       peerTrackNodesAfter (state_peerTrackNodes c) effects;
     state_loading := loadingAfter (state_loading c) effects |}.

(** *** Errors *)

Lemma hmsErrorHandler_in_meeting uid error :
  hmsErrorHandler IN_MEETING uid error =
  [Dispatch (addNotification
     (if terminalError error then TerminalErrorNotification uid error
      else ErrorNotification uid (description error)))].
Proof. reflexivity. Qed.

Lemma hmsErrorHandler_not_in_meeting meetingState uid error :
  meetingState <> IN_MEETING ->
  hmsErrorHandler meetingState uid error =
  SetLoading false ::
  (if terminalError error then
     [AlertAlert (pretty (code error))
        (orElse (description error) "Something went wrong")
        (if bool_decide (meetingState = IN_PREVIEW)
         then leave NETWORK_ISSUES else destroy NETWORK_ISSUES)]
   else
     [ToastShowWithGravity
        (orElse (pretty (code error) +:+ " " +:+ description error)
                "Something went wrong")]).
Proof.
  intros Hne. unfold hmsErrorHandler.
  rewrite bool_decide_eq_false_2 by exact Hne. reflexivity.
Qed.

(** In a meeting the type of the queued notification tells the kind of
    error. *)
Lemma hmsErrorHandler_notification_type uid error :
  exists n,
    hmsErrorHandler IN_MEETING uid error = [Dispatch (addNotification n)]
    /\ notificationType n
       = if terminalError error then TERMINAL_ERROR else ERROR.
Proof.
  rewrite hmsErrorHandler_in_meeting. eexists. split; [reflexivity |].
  by destruct (terminalError error).
Qed.

(** Outside a meeting an error ends the loading state. *)
Lemma hmsErrorHandler_loading meetingState uid error loading :
  meetingState <> IN_MEETING ->
  loadingAfter loading (hmsErrorHandler meetingState uid error) = false.
Proof.
  intros Hne. rewrite hmsErrorHandler_not_in_meeting by exact Hne.
  by destruct (terminalError error).
Qed.

Lemma onPreviewHandler_loading data loading :
  loadingAfter loading (onPreviewHandler data) = false.
Proof. reflexivity. Qed.

(** C3 (amended).  A terminal error (SDK flag or terminal code) that
    arrives during preview clears the loading flag and shows a dialog
    whose Leave button calls [leave]; one that arrives while neither
    previewing nor in the meeting shows the same dialog with [destroy]
    behind the button; one that arrives during the active meeting only
    queues a TERMINAL_ERROR notification carrying the exception. *)
Theorem terminal_error_paths meetingState uid error :
  terminalError error = true ->
  (meetingState = IN_PREVIEW ->
     hmsErrorHandler meetingState uid error =
     [SetLoading false;
      AlertAlert (pretty (code error))
        (orElse (description error) "Something went wrong")
        (leave NETWORK_ISSUES)])
  /\ (meetingState <> IN_PREVIEW -> meetingState <> IN_MEETING ->
     hmsErrorHandler meetingState uid error =
     [SetLoading false;
      AlertAlert (pretty (code error))
        (orElse (description error) "Something went wrong")
        (destroy NETWORK_ISSUES)])
  /\ (meetingState = IN_MEETING ->
     hmsErrorHandler meetingState uid error =
     [Dispatch (addNotification (TerminalErrorNotification uid error))]).
Proof.
  intros Hterminal. repeat split.
  - intros ->. rewrite hmsErrorHandler_not_in_meeting by discriminate.
    by rewrite Hterminal.
  - intros Hp Hm. rewrite hmsErrorHandler_not_in_meeting by exact Hm.
    rewrite Hterminal. by rewrite bool_decide_eq_false_2.
  - intros ->. rewrite hmsErrorHandler_in_meeting. by rewrite Hterminal.
Qed.

(** C4 (amended).  A non-terminal error that arrives during the active
    meeting is queued as an ERROR notification titled with its
    description; one that arrives at any other time, preview included,
    clears the loading flag and is shown as a transient toast. *)
Theorem non_terminal_error_paths meetingState uid error :
  terminalError error = false ->
  (meetingState = IN_MEETING ->
     hmsErrorHandler meetingState uid error =
     [Dispatch (addNotification (ErrorNotification uid (description error)))])
  /\ (meetingState <> IN_MEETING ->
     hmsErrorHandler meetingState uid error =
     [SetLoading false;
      ToastShowWithGravity
        (orElse (pretty (code error) +:+ " " +:+ description error)
                "Something went wrong")]).
Proof.
  intros Hterminal. split.
  - intros ->. rewrite hmsErrorHandler_in_meeting. by rewrite Hterminal.
  - intros Hm. rewrite hmsErrorHandler_not_in_meeting by exact Hm.
    by rewrite Hterminal.
Qed.

(** *** Meeting state *)

Lemma step_OnPreview meetingState data :
  step meetingState (OnPreview data) = IN_PREVIEW.
Proof. reflexivity. Qed.

Lemma meetingStateAfter_app s l1 l2 :
  meetingStateAfter s (l1 ++ l2) = meetingStateAfter (meetingStateAfter s l1) l2.
Proof.
  unfold meetingStateAfter, dispatched. by rewrite omap_app, foldl_app.
Qed.

Lemma step_OnJoin meetingState reduxState data_room :
  step meetingState (OnJoin reduxState data_room) = IN_MEETING.
Proof.
  unfold step, handle, onJoinHandler.
  rewrite !meetingStateAfter_app. reflexivity.
Qed.

Lemma step_OnError meetingState uid error :
  step meetingState (OnError uid error) = meetingState.
Proof.
  unfold step, handle, hmsErrorHandler.
  destruct (bool_decide (meetingState = IN_MEETING)); [reflexivity |].
  by destruct (terminalError error).
Qed.

Lemma step_OnPollUpdate meetingState isHLSViewer reduxState now poll ty :
  step meetingState (OnPollUpdate isHLSViewer reduxState now poll ty)
  = meetingState.
Proof.
  unfold step, handle, onPollUpdate. split_conditionals; reflexivity.
Qed.

Lemma step_OnWhiteboardUpdate meetingState hmsWhiteboard updateType :
  step meetingState (OnWhiteboardUpdate hmsWhiteboard updateType)
  = meetingState.
Proof. reflexivity. Qed.

Lemma step_eq meetingState ev :
  step meetingState ev =
  match ev with
  | OnPreview _ => IN_PREVIEW
  | OnJoin _ _ => IN_MEETING
  | _ => meetingState
  end.
Proof.
  destruct ev; auto using step_OnPreview, step_OnJoin, step_OnError,
    step_OnPollUpdate, step_OnWhiteboardUpdate.
Qed.

Lemma neverBackwards_in_meeting evs :
  forallb (fun e => negb (isPreview e)) evs = true ->
  neverBackwards IN_MEETING (meetingStates IN_MEETING evs).
Proof.
  induction evs as [|ev evs IH]; simpl; [done |].
  intros [Hev Hevs]%andb_prop. rewrite step_eq.
  destruct ev; simpl in *; try discriminate; split; auto.
Qed.

Lemma neverBackwards_session s evs :
  (rank s <= rank IN_PREVIEW)%nat ->
  previewsBeforeJoins evs = true ->
  neverBackwards s (meetingStates s evs).
Proof.
  revert s. induction evs as [|ev evs IH]; intros s Hs; simpl; [done |].
  intros [Hev Hevs]%andb_prop. rewrite step_eq.
  destruct ev; simpl in *.
  - split; [lia | by apply IH].
  - split; [exact Hs | by apply IH].
  - split; [lia | by apply neverBackwards_in_meeting].
  - split; [lia | by apply IH].
  - split; [lia | by apply IH].
Qed.

(** C6 (amended).  Every event causes exactly the transition of its
    handler: ON_PREVIEW sets the state to IN_PREVIEW and ON_JOIN sets it
    to IN_MEETING, whatever the state was, and the other events leave
    it alone.  Along a sequence of events in which no ON_PREVIEW comes
    after an ON_JOIN, started before the meeting, the state never moves
    backwards. *)
Theorem meeting_state_transitions :
  (forall s ev,
     step s ev = match ev with
                 | OnPreview _ => IN_PREVIEW
                 | OnJoin _ _ => IN_MEETING
                 | _ => s
                 end)
  /\ (forall s evs,
       (rank s <= rank IN_PREVIEW)%nat ->
       previewsBeforeJoins evs = true ->
       neverBackwards s (meetingStates s evs)).
Proof. split; [apply step_eq | apply neverBackwards_session]. Qed.

(** *** The rendering list *)

Lemma samePeer_eq n p : samePeer n p = true -> peerID (peer n) = peerID p.
Proof. unfold samePeer. by intros ?%bool_decide_eq_true. Qed.

Lemma sameTrack_eq n t :
  sameTrack n t = true -> trackId <$> track n = Some (trackId t).
Proof.
  unfold sameTrack. destruct (track n) as [t'|]; [|discriminate].
  intros ?%bool_decide_eq_true. simpl. by f_equal.
Qed.

Lemma replacePeerTrackNodesWithTrack_keys nodes p t :
  nodeKey <$> replacePeerTrackNodesWithTrack nodes p t = nodeKey <$> nodes.
Proof.
  unfold replacePeerTrackNodesWithTrack. rewrite <- list_fmap_compose.
  apply list_fmap_ext. intros i n _. simpl.
  destruct (samePeer n p) eqn:Hp; [|reflexivity].
  destruct (sameTrack n t) eqn:Ht; [|reflexivity].
  unfold nodeKey. simpl.
  by rewrite (samePeer_eq _ _ Hp), (sameTrack_eq _ _ Ht).
Qed.

Lemma replacePeerTrackNodes_keys nodes p :
  nodeKey <$> replacePeerTrackNodes nodes p = nodeKey <$> nodes.
Proof.
  unfold replacePeerTrackNodes. rewrite <- list_fmap_compose.
  apply list_fmap_ext. intros i n _. simpl.
  destruct (samePeer n p) eqn:Hp; [|reflexivity].
  unfold nodeKey. simpl. by rewrite (samePeer_eq _ _ Hp).
Qed.

Lemma peerTrackNodeExistForPeer_false nodes p k :
  peerTrackNodeExistForPeer nodes p = false ->
  (peerID p, k) ∉ nodeKey <$> nodes.
Proof.
  unfold peerTrackNodeExistForPeer.
  induction nodes as [|n nodes IH]; simpl; [intros _; apply not_elem_of_nil |].
  intros [Hn Hnodes]%orb_false_elim. rewrite not_elem_of_cons. split.
  - unfold nodeKey, samePeer in *. apply bool_decide_eq_false in Hn.
    congruence.
  - by apply IH.
Qed.

Lemma peerTrackNodeExistForPeerAndTrack_peer nodes p t :
  peerTrackNodeExistForPeerAndTrack nodes p t = true ->
  peerTrackNodeExistForPeer nodes p = true.
Proof.
  unfold peerTrackNodeExistForPeerAndTrack, peerTrackNodeExistForPeer.
  induction nodes as [|n nodes IH]; simpl; [done |].
  intros [[Hp _]%andb_prop | H]%orb_prop.
  - by rewrite Hp.
  - rewrite (IH H). apply orb_true_r.
Qed.

(** Replacement is in place: the list keeps its length and every
    position either its node or the node of the given peer and track. *)
Lemma replacePeerTrackNodesWithTrack_in_place nodes p t i :
  replacePeerTrackNodesWithTrack nodes p t !! i =
  (fun n => if samePeer n p && sameTrack n t
            then createPeerTrackNode p (Some t) else n) <$> nodes !! i.
Proof. unfold replacePeerTrackNodesWithTrack. apply list_lookup_fmap. Qed.

Lemma replacePeerTrackNodes_in_place nodes p i :
  replacePeerTrackNodes nodes p !! i =
  (fun n => if samePeer n p
            then createPeerTrackNode p (track n) else n) <$> nodes !! i.
Proof. unfold replacePeerTrackNodes. apply list_lookup_fmap. Qed.

Lemma peerTrackNodeExistForPeer_elem nodes p n :
  n ∈ nodes -> samePeer n p = true ->
  peerTrackNodeExistForPeer nodes p = true.
Proof.
  intros Hn Hp. unfold peerTrackNodeExistForPeer.
  apply existsb_exists. exists n. split; [by apply list_elem_of_In | exact Hp].
Qed.

(** With no node of the peer in the list, the updater prepends or keeps. *)
Lemma onJoin_setPeerTrackNodes_absent p t n inset canCreateTile prev :
  peerTrackNodeExistForPeer prev p = false ->
  onJoin_setPeerTrackNodes p t n inset canCreateTile prev =
  if negb (truthy inset) && canCreateTile then n :: prev else prev.
Proof.
  intros Hp. unfold onJoin_setPeerTrackNodes. rewrite Hp.
  destruct t as [t|]; [|reflexivity]. simpl.
  destruct (peerTrackNodeExistForPeerAndTrack prev p t) eqn:Hpt;
    [|reflexivity].
  apply peerTrackNodeExistForPeerAndTrack_peer in Hpt. congruence.
Qed.

Lemma onJoin_setPeerTrackNodes_unique p t inset canCreateTile prev :
  uniquePeerTrack prev ->
  uniquePeerTrack
    (onJoin_setPeerTrackNodes p t (createPeerTrackNode p t) inset
                              canCreateTile prev).
Proof.
  unfold uniquePeerTrack, onJoin_setPeerTrackNodes. intros Hprev.
  destruct (t ≫= _) as [t'|].
  { by rewrite replacePeerTrackNodesWithTrack_keys. }
  destruct (peerTrackNodeExistForPeer prev p) eqn:Hexists.
  { by rewrite replacePeerTrackNodes_keys. }
  destruct (negb (truthy inset) && canCreateTile); [|exact Hprev].
  rewrite fmap_cons. apply NoDup_cons. split; [|exact Hprev].
  by apply peerTrackNodeExistForPeer_false.
Qed.

Lemma onJoin_setPeerTrackNodes_length p t n inset canCreateTile prev :
  length (onJoin_setPeerTrackNodes p t n inset canCreateTile prev) =
  if negb (peerTrackNodeExistForPeer prev p)
     && negb (truthy inset) && canCreateTile
  then S (length prev) else length prev.
Proof.
  unfold onJoin_setPeerTrackNodes.
  destruct (t ≫= _) as [t'|] eqn:Ht.
  { destruct t as [t0|]; [|discriminate]. simpl in Ht.
    destruct (peerTrackNodeExistForPeerAndTrack prev p t0) eqn:Hpt;
      [|discriminate].
    rewrite (peerTrackNodeExistForPeerAndTrack_peer _ _ _ Hpt). simpl.
    unfold replacePeerTrackNodesWithTrack. apply length_fmap. }
  destruct (peerTrackNodeExistForPeer prev p); simpl.
  { unfold replacePeerTrackNodes. apply length_fmap. }
  by destruct (negb (truthy inset) && canCreateTile).
Qed.

Lemma peerTrackNodesAfter_app nodes l1 l2 :
  peerTrackNodesAfter nodes (l1 ++ l2) =
  peerTrackNodesAfter (peerTrackNodesAfter nodes l1) l2.
Proof. apply foldl_app. Qed.

Lemma peerTrackNodesAfter_onJoin_batch nodes reduxState data_room :
  peerTrackNodesAfter nodes (onJoin_batch reduxState data_room) = nodes.
Proof. unfold onJoin_batch. split_conditionals; reflexivity. Qed.

(** The join handler changes the rendering list through its updater
    and nothing else. *)
Lemma peerTrackNodesAfter_onJoinHandler prev reduxState data_room :
  peerTrackNodesAfter prev (onJoinHandler reduxState data_room) =
  onJoin_setPeerTrackNodes (localPeer data_room)
    (videoTrack (localPeer data_room))
    (createPeerTrackNode (localPeer data_room)
                         (videoTrack (localPeer data_room)))
    (enableLocalTileInsetOf
       (selectLayoutConfigForRole (hmsStates_layoutConfig reduxState)
                                  (role (localPeer data_room))))
    (canCreateTileOf (localPeer data_room)
       (selectLayoutConfigForRole (hmsStates_layoutConfig reduxState)
                                  (role (localPeer data_room))))
    prev.
Proof.
  unfold onJoinHandler.
  rewrite !peerTrackNodesAfter_app, peerTrackNodesAfter_onJoin_batch.
  simpl. by destruct (selectShouldGoLive reduxState).
Qed.

Lemma peerTrackNodesAfter_other meetingState ev prev :
  isJoin ev = false ->
  peerTrackNodesAfter prev (handle meetingState ev) = prev.
Proof.
  destruct ev; simpl; try discriminate; intros _.
  - unfold hmsErrorHandler. split_conditionals; reflexivity.
  - reflexivity.
  - unfold onPollUpdate. split_conditionals; reflexivity.
  - reflexivity.
Qed.

Lemma handle_unique meetingState ev prev :
  uniquePeerTrack prev ->
  uniquePeerTrack (peerTrackNodesAfter prev (handle meetingState ev)).
Proof.
  intros Hprev. destruct (isJoin ev) eqn:Hev.
  - destruct ev; try discriminate. unfold handle.
    rewrite peerTrackNodesAfter_onJoinHandler.
    by apply onJoin_setPeerTrackNodes_unique.
  - by rewrite peerTrackNodesAfter_other.
Qed.

Lemma peerTrackNodesAlong_unique meetingState nodes evs :
  uniquePeerTrack nodes ->
  Forall uniquePeerTrack (peerTrackNodesAlong meetingState nodes evs).
Proof.
  revert meetingState nodes.
  induction evs as [|ev evs IH]; intros s nodes Hnodes; simpl.
  - constructor.
  - constructor; [by apply handle_unique |].
    apply IH. by apply handle_unique.
Qed.

(** C1.  The rendering list, empty at first, holds at most one node per
    (peer, track) combination at every point: the update of the join
    handler, whichever of its cases applies (replace for the peer and
    track, replace for the peer, prepend the local node, or keep the
    list), and the other handlers, which leave the list alone, take a
    duplicate-free list to a duplicate-free list. *)
Theorem peerTrackNodes_unique :
  uniquePeerTrack []
  /\ (forall meetingState ev prev,
       uniquePeerTrack prev ->
       uniquePeerTrack (peerTrackNodesAfter prev (handle meetingState ev)))
  /\ (forall meetingState evs,
       Forall uniquePeerTrack (peerTrackNodesAlong meetingState [] evs)).
Proof.
  assert (Hnil : uniquePeerTrack []) by apply NoDup_nil_2.
  repeat split.
  - exact Hnil.
  - apply handle_unique.
  - intros s evs. by apply peerTrackNodesAlong_unique.
Qed.

(** C2 (amended).  On join success the rendering list is updated by
    cases.  If the local peer has a video track and a node for the peer
    and that track exists, the node is replaced in place.  Otherwise, if
    a node for the peer exists, the nodes of the peer are replaced in
    place.  Otherwise the local node is prepended when the local tile
    is not inset and the peer may have a tile, and the list is kept as
    it is when the tile is inset or the peer may not have one. *)
Theorem join_updates_rendering_list reduxState data_room prev :
  let lp := localPeer data_room in
  let layout :=
    selectLayoutConfigForRole (hmsStates_layoutConfig reduxState) (role lp) in
  let result := peerTrackNodesAfter prev (onJoinHandler reduxState data_room) in
  (forall t, videoTrack lp = Some t ->
     peerTrackNodeExistForPeerAndTrack prev lp t = true ->
     result = replacePeerTrackNodesWithTrack prev lp t)
  /\ ((forall t, videoTrack lp = Some t ->
        peerTrackNodeExistForPeerAndTrack prev lp t = false) ->
     peerTrackNodeExistForPeer prev lp = true ->
     result = replacePeerTrackNodes prev lp)
  /\ (peerTrackNodeExistForPeer prev lp = false ->
     truthy (enableLocalTileInsetOf layout) = false ->
     canCreateTileOf lp layout = true ->
     result = createPeerTrackNode lp (videoTrack lp) :: prev)
  /\ (peerTrackNodeExistForPeer prev lp = false ->
     truthy (enableLocalTileInsetOf layout) = true
     \/ canCreateTileOf lp layout = false ->
     result = prev).
Proof.
  intros lp layout result. subst result.
  rewrite peerTrackNodesAfter_onJoinHandler. fold lp. fold layout.
  repeat split.
  - intros t Ht Hpt. unfold onJoin_setPeerTrackNodes.
    rewrite Ht. simpl. by rewrite Hpt.
  - intros Hpt Hp. unfold onJoin_setPeerTrackNodes.
    destruct (videoTrack lp) as [t|]; simpl.
    + rewrite (Hpt t eq_refl). by rewrite Hp.
    + by rewrite Hp.
  - intros Hp Hinset Hcan.
    rewrite onJoin_setPeerTrackNodes_absent by exact Hp.
    by rewrite Hinset, Hcan.
  - intros Hp Hno. rewrite onJoin_setPeerTrackNodes_absent by exact Hp.
    destruct Hno as [-> | ->]; [reflexivity |]. by rewrite andb_false_r.
Qed.

(** *** The tile of the local peer *)

Lemma onJoinHandler_setMiniView reduxState data_room n :
  Dispatch (setMiniViewPeerTrackNode n) ∈ onJoinHandler reduxState data_room
  <->
  canCreateTileOf (localPeer data_room)
    (selectLayoutConfigForRole (hmsStates_layoutConfig reduxState)
                               (role (localPeer data_room))) = true
  /\ truthy (enableLocalTileInsetOf
       (selectLayoutConfigForRole (hmsStates_layoutConfig reduxState)
                                  (role (localPeer data_room)))) = true
  /\ n = createPeerTrackNode (localPeer data_room)
                             (videoTrack (localPeer data_room)).
Proof.
  unfold onJoinHandler, onJoin_batch, startHLSStreaming.
  split_conditionals;
    rewrite ?elem_of_app, ?elem_of_cons, ?elem_of_nil;
    intuition (try discriminate; try congruence).
Qed.

Lemma onJoinHandler_localPeerTrackNode reduxState data_room :
  (exists n, Dispatch (setLocalPeerTrackNode n)
               ∈ onJoinHandler reduxState data_room)
  \/ (exists p t, Dispatch (updateLocalPeerTrackNode p t)
                    ∈ onJoinHandler reduxState data_room) ->
  canCreateTileOf (localPeer data_room)
    (selectLayoutConfigForRole (hmsStates_layoutConfig reduxState)
                               (role (localPeer data_room))) = true.
Proof.
  intros [[n H] | (p & t & H)]; revert H;
    unfold onJoinHandler, onJoin_batch, startHLSStreaming;
    split_conditionals;
    rewrite ?elem_of_app, ?elem_of_cons, ?elem_of_nil;
    intuition (try discriminate; try congruence).
Qed.

Lemma onJoinHandler_addsNode reduxState data_room prev :
  addsNode prev (onJoinHandler reduxState data_room) <->
  peerTrackNodeExistForPeer prev (localPeer data_room) = false
  /\ truthy (enableLocalTileInsetOf
       (selectLayoutConfigForRole (hmsStates_layoutConfig reduxState)
                                  (role (localPeer data_room)))) = false
  /\ canCreateTileOf (localPeer data_room)
       (selectLayoutConfigForRole (hmsStates_layoutConfig reduxState)
                                  (role (localPeer data_room))) = true.
Proof.
  unfold addsNode.
  rewrite peerTrackNodesAfter_onJoinHandler, onJoin_setPeerTrackNodes_length.
  destruct (peerTrackNodeExistForPeer _ _), (truthy _), (canCreateTileOf _ _);
    simpl; split; try lia; intuition congruence.
Qed.

Lemma peerTrackNodeExistForPeer_keys nodes nodes' p :
  nodeKey <$> nodes = nodeKey <$> nodes' ->
  peerTrackNodeExistForPeer nodes p = peerTrackNodeExistForPeer nodes' p.
Proof.
  unfold peerTrackNodeExistForPeer. revert nodes'.
  induction nodes as [|n nodes IH]; intros [|n' nodes']; try done.
  rewrite !fmap_cons. intros [= Hp _ Hrest]. simpl.
  rewrite (IH _ Hrest). unfold samePeer. by rewrite Hp.
Qed.

(** A list that holds a node of the peer keeps its keys. *)
Lemma onJoin_setPeerTrackNodes_present p t n inset canCreateTile prev :
  peerTrackNodeExistForPeer prev p = true ->
  nodeKey <$> onJoin_setPeerTrackNodes p t n inset canCreateTile prev
  = nodeKey <$> prev.
Proof.
  intros Hp. unfold onJoin_setPeerTrackNodes.
  destruct (t ≫= _) as [t'|].
  { apply replacePeerTrackNodesWithTrack_keys. }
  rewrite Hp. apply replacePeerTrackNodes_keys.
Qed.

(** C7.  On join success the handler creates a tile for the local peer
    (a node added to the rendering list, the mini-view node, or the
    local node of the store) only when the peer is allowed to publish
    and is not an HLS viewer.  When the local tile inset is enabled the
    list gets no new node and the local node goes to the mini view; in no
    case does the handler both add a node to the list and set the
    mini-view node, and when the list held no node of the local peer the
    local node is never in the list and in the mini view at once.  A
    node of the local peer that the list already holds is not taken out:
    the list keeps its keys, so with the inset enabled and a peer that
    can have a tile the local peer then has a node in the list and the
    mini-view node at once. *)
Theorem local_tile_routing reduxState data_room prev :
  let lp := localPeer data_room in
  let layout :=
    selectLayoutConfigForRole (hmsStates_layoutConfig reduxState) (role lp) in
  let effects := onJoinHandler reduxState data_room in
  (addsNode prev effects \/ setsMiniView effects
   \/ (exists n, Dispatch (setLocalPeerTrackNode n) ∈ effects)
   \/ (exists p t, Dispatch (updateLocalPeerTrackNode p t) ∈ effects) ->
   isPublishingAllowed lp = true /\ selectIsHLSViewer (role lp) layout = false)
  /\ (truthy (enableLocalTileInsetOf layout) = true ->
     ~ addsNode prev effects
     /\ (canCreateTileOf lp layout = true ->
         Dispatch (setMiniViewPeerTrackNode
                     (createPeerTrackNode lp (videoTrack lp))) ∈ effects))
  /\ ~ (addsNode prev effects /\ setsMiniView effects)
  /\ (peerTrackNodeExistForPeer prev lp = false ->
     ~ (createPeerTrackNode lp (videoTrack lp)
          ∈ peerTrackNodesAfter prev effects
        /\ setsMiniView effects))
  /\ (peerTrackNodeExistForPeer prev lp = true ->
     nodeKey <$> peerTrackNodesAfter prev effects = nodeKey <$> prev
     /\ (truthy (enableLocalTileInsetOf layout) = true ->
         canCreateTileOf lp layout = true ->
         peerTrackNodeExistForPeer (peerTrackNodesAfter prev effects) lp
         = true
         /\ setsMiniView effects)).
Proof.
  intros lp layout effects. subst effects.
  assert (Hcan : canCreateTileOf lp layout = true ->
    isPublishingAllowed lp = true
    /\ selectIsHLSViewer (role lp) layout = false).
  { unfold canCreateTileOf. intros [? ?%negb_true_iff]%andb_prop. done. }
  split; [|split; [|split; [|split]]].
  - intros H. apply Hcan.
    destruct H as [H | [[n H] | H]].
    + by apply onJoinHandler_addsNode in H as (_ & _ & ?).
    + by apply onJoinHandler_setMiniView in H as (? & _ & _).
    + by apply onJoinHandler_localPeerTrackNode.
  - intros Hinset. split.
    + intros Hadd. apply onJoinHandler_addsNode in Hadd as (_ & Hinset' & _).
      fold lp in Hinset'. fold layout in Hinset'. congruence.
    + intros Hcreate. by apply onJoinHandler_setMiniView.
  - intros [Hadd [n Hmini]].
    apply onJoinHandler_addsNode in Hadd as (_ & Hinset & _).
    apply onJoinHandler_setMiniView in Hmini as (_ & Hinset' & _).
    congruence.
  - intros Hp [Hin [n Hmini]].
    apply onJoinHandler_setMiniView in Hmini as (_ & Hinset & _).
    rewrite peerTrackNodesAfter_onJoinHandler in Hin.
    rewrite onJoin_setPeerTrackNodes_absent in Hin by exact Hp.
    rewrite Hinset in Hin. simpl in Hin.
    assert (Hex : peerTrackNodeExistForPeer prev lp = true).
    { apply (peerTrackNodeExistForPeer_elem _ _ _ Hin).
      unfold samePeer. simpl. by apply bool_decide_eq_true_2. }
    fold lp in Hex. congruence.
  - intros Hp.
    assert (Hkeys : nodeKey <$> peerTrackNodesAfter prev
                                  (onJoinHandler reduxState data_room)
                    = nodeKey <$> prev).
    { rewrite peerTrackNodesAfter_onJoinHandler.
      by apply onJoin_setPeerTrackNodes_present. }
    split; [exact Hkeys |]. intros Hinset Hcreate. split.
    + by rewrite (peerTrackNodeExistForPeer_keys _ prev lp Hkeys).
    + eexists. by apply onJoinHandler_setMiniView.
Qed.

(** *** Poll notifications *)

Lemma pollNotificationsFor_app pid l1 l2 :
  pollNotificationsFor pid (l1 ++ l2) =
  (pollNotificationsFor pid l1 + pollNotificationsFor pid l2)%nat.
Proof.
  unfold pollNotificationsFor. by rewrite List.filter_app, length_app.
Qed.

Lemma pollsAfter_onPollUpdate isHLSViewer reduxState now poll ty :
  pollsAfter (polls_polls reduxState)
             (onPollUpdate isHLSViewer reduxState now poll ty)
  = <[pollId poll := poll]> (polls_polls reduxState).
Proof. unfold onPollUpdate. split_conditionals; reflexivity. Qed.

(** A read finds nothing exactly when the object has no such property of
    its own and inherits none of that name. *)
Lemma getProperty_None (object : gmap string HMSPoll) key :
  getProperty object key = None
  <-> object !! key = None /\ key ∉ Object_prototype.
Proof.
  unfold getProperty. destruct (object !! key) as [p|].
  - split; [discriminate | intros [? _]; discriminate].
  - case_bool_decide; split; try done. intros [_ ?]. done.
Qed.

Lemma getProperty_insert (object : gmap string HMSPoll) key poll :
  getProperty (<[key := poll]> object) key <> None.
Proof. rewrite getProperty_None, lookup_insert_eq. intros [? _]. done. Qed.

Lemma getProperty_insert_mono (object : gmap string HMSPoll) key k poll :
  getProperty object key <> None ->
  getProperty (<[k := poll]> object) key <> None.
Proof.
  rewrite !getProperty_None. intros H [Hins Hproto]. apply H.
  split; [|exact Hproto]. by apply lookup_insert_None in Hins as [? _].
Qed.

(** A poll that the read finds in the store is not notified again. *)
Lemma onPollUpdate_known isHLSViewer reduxState now poll ty pid :
  getProperty (polls_polls reduxState) (pollId poll) <> None ->
  pollNotificationsFor pid (onPollUpdate isHLSViewer reduxState now poll ty)
  = 0%nat.
Proof.
  intros Hp. unfold onPollUpdate.
  rewrite (bool_decide_eq_false_2 (_ = None)) by exact Hp.
  rewrite andb_false_r. split_conditionals; reflexivity.
Qed.

(** An update notifies about its own poll only. *)
Lemma onPollUpdate_other isHLSViewer reduxState now poll ty pid :
  pollId poll <> pid ->
  pollNotificationsFor pid (onPollUpdate isHLSViewer reduxState now poll ty)
  = 0%nat.
Proof.
  intros Hne. unfold onPollUpdate.
  split_conditionals; unfold pollNotificationsFor; simpl;
    rewrite ?bool_decide_eq_false_2 by exact Hne; reflexivity.
Qed.



Lemma pollsAfter_onPollUpdate_in polls u :
  pollsAfter polls (onPollUpdate_in polls u)
  = <[pollId (update_poll u) := update_poll u]> polls.
Proof.
  exact (pollsAfter_onPollUpdate (update_isHLSViewer u)
           (withPolls (update_reduxState u) polls) (update_now u)
           (update_poll u) (update_type u)).
Qed.

Lemma pollUpdates_known (polls : gmap string HMSPoll) us pid :
  getProperty polls pid <> None ->
  pollNotificationsFor pid (pollUpdates polls us) = 0%nat.
Proof.
  revert polls. induction us as [|u us IH]; intros polls Hpid; simpl;
    [reflexivity |].
  rewrite pollNotificationsFor_app, pollsAfter_onPollUpdate_in.
  rewrite IH by (by apply getProperty_insert_mono).
  destruct (decide (pollId (update_poll u) = pid)) as [Heq | Hne].
  - unfold onPollUpdate_in. rewrite onPollUpdate_known; [reflexivity |].
    simpl. by rewrite Heq.
  - unfold onPollUpdate_in. by rewrite onPollUpdate_other.
Qed.



(** *** What each listener leaves alone *)

Lemma loadingAfter_app loading l1 l2 :
  loadingAfter loading (l1 ++ l2) = loadingAfter (loadingAfter loading l1) l2.
Proof. apply foldl_app. Qed.

Lemma pollsAfter_app (polls : gmap string HMSPoll) l1 l2 :
  pollsAfter polls (l1 ++ l2) = pollsAfter (pollsAfter polls l1) l2.
Proof. unfold pollsAfter, dispatched. by rewrite omap_app, foldl_app. Qed.

Lemma onJoin_batch_frame reduxState data_room loading
    (polls : gmap string HMSPoll) :
  loadingAfter loading (onJoin_batch reduxState data_room) = loading
  /\ pollsAfter polls (onJoin_batch reduxState data_room) = polls.
Proof. unfold onJoin_batch. split_conditionals; split; reflexivity. Qed.

Lemma onJoinHandler_frame reduxState data_room loading
    (polls : gmap string HMSPoll) :
  loadingAfter loading (onJoinHandler reduxState data_room) = false
  /\ pollsAfter polls (onJoinHandler reduxState data_room) = polls.
Proof.
  unfold onJoinHandler.
  rewrite !loadingAfter_app, !pollsAfter_app.
  rewrite (proj1 (onJoin_batch_frame _ _ _ polls)).
  rewrite (proj2 (onJoin_batch_frame _ _ false _)).
  destruct (selectShouldGoLive reduxState); split; reflexivity.
Qed.

Lemma hmsErrorHandler_frame meetingState uid error
    (polls : gmap string HMSPoll) :
  pollsAfter polls (hmsErrorHandler meetingState uid error) = polls.
Proof. unfold hmsErrorHandler. split_conditionals; reflexivity. Qed.

Lemma onPollUpdate_frame isHLSViewer reduxState now poll ty loading :
  loadingAfter loading (onPollUpdate isHLSViewer reduxState now poll ty)
  = loading.
Proof. unfold onPollUpdate. split_conditionals; reflexivity. Qed.

(** X8.  Each listener changes only its own part of the state, and none
    ever sets the loading flag.  An error never changes the meeting
    state or the rendering list, and clears the loading flag exactly
    when it arrives outside a meeting.  A preview or join event clears
    the loading flag; a poll or whiteboard update leaves the meeting
    state, the rendering list and the loading flag as they are. *)
Theorem listeners_frame meetingState (ev : SDKEvent) nodes loading :
  let effects := handle meetingState ev in
  loadingAfter false effects = false
  /\ match ev with
     | OnError _ _ =>
         meetingStateAfter meetingState effects = meetingState
         /\ peerTrackNodesAfter nodes effects = nodes
         /\ loadingAfter loading effects
            = if bool_decide (meetingState = IN_MEETING) then loading
              else false
     | OnPreview _ =>
         peerTrackNodesAfter nodes effects = nodes
         /\ loadingAfter loading effects = false
     | OnJoin _ _ => loadingAfter loading effects = false
     | OnPollUpdate _ _ _ _ _ | OnWhiteboardUpdate _ _ =>
         meetingStateAfter meetingState effects = meetingState
         /\ peerTrackNodesAfter nodes effects = nodes
         /\ loadingAfter loading effects = loading
     end.
Proof.
  intros effects. subst effects.
  destruct ev; unfold handle.
  - assert (Hl : forall l,
      loadingAfter l (hmsErrorHandler meetingState uid error)
      = if bool_decide (meetingState = IN_MEETING) then l else false).
    { intros l. destruct (decide (meetingState = IN_MEETING)) as [-> | Hne].
      - reflexivity.
      - rewrite bool_decide_eq_false_2 by exact Hne.
        by apply hmsErrorHandler_loading. }
    split; [rewrite Hl; by case_bool_decide |].
    split; [apply (step_OnError meetingState) |].
    split; [|apply Hl].
    by apply (peerTrackNodesAfter_other meetingState (OnError _ _)).
  - repeat split.
  - split; exact (proj1 (onJoinHandler_frame _ _ _ ∅)).
  - split; [apply onPollUpdate_frame |].
    split; [apply (step_OnPollUpdate meetingState) |].
    split; [|apply onPollUpdate_frame].
    by apply (peerTrackNodesAfter_other meetingState
                (OnPollUpdate _ _ _ _ _)).
  - repeat split.
Qed.

(** *** What is on screen after an event *)

Lemma screen_deliver_OnError c uid error :
  screen (deliver c (OnError uid error)) =
  match state_meetingState c with
  | IN_PREVIEW => Screens.Preview false
  | IN_MEETING => Screens.MeetingScreen (state_peerTrackNodes c)
  | MEETING_ENDED => Screens.HMSMeetingEnded
  | NOT_JOINED => Screens.EmptyView
  end.
Proof.
  unfold screen, deliver.
  change (meetingStateAfter (state_meetingState c)
            (handle (state_meetingState c) (OnError uid error)))
    with (step (state_meetingState c) (OnError uid error)).
  rewrite step_OnError.
  rewrite (peerTrackNodesAfter_other _ (OnError uid error)) by reflexivity.
  destruct (state_meetingState c) eqn:Hs;
    cbn [state_meetingState state_peerTrackNodes state_loading handle
         Screens.HMSRoomSetup_render];
    try (rewrite hmsErrorHandler_loading by discriminate); reflexivity.
Qed.

(** X9.  After a preview event the preview screen is shown with its
    button not loading; after a join event the meeting screen is shown
    with the list the join handler produced; after an error the loading
    indicator is never shown, and in preview the preview screen is shown
    with its button not loading; poll and whiteboard updates do not
    change the screen. *)
Theorem screen_after_event c :
  (forall data, screen (deliver c (OnPreview data)) = Screens.Preview false)
  /\ (forall reduxState data_room,
       screen (deliver c (OnJoin reduxState data_room))
       = Screens.MeetingScreen
           (peerTrackNodesAfter (state_peerTrackNodes c)
              (onJoinHandler reduxState data_room)))
  /\ (forall uid error,
       screen (deliver c (OnError uid error)) <> Screens.FullScreenIndicator
       /\ (state_meetingState c = IN_PREVIEW ->
           screen (deliver c (OnError uid error)) = Screens.Preview false))
  /\ (forall isHLSViewer reduxState now poll ty,
       screen (deliver c (OnPollUpdate isHLSViewer reduxState now poll ty))
       = screen c)
  /\ (forall hmsWhiteboard updateType,
       screen (deliver c (OnWhiteboardUpdate hmsWhiteboard updateType))
       = screen c).
Proof.
  split; [|split; [|split; [|split]]].
  - reflexivity.
  - intros reduxState data_room. unfold screen, deliver.
    change (meetingStateAfter (state_meetingState c)
              (handle (state_meetingState c) (OnJoin reduxState data_room)))
      with (step (state_meetingState c) (OnJoin reduxState data_room)).
    by rewrite step_OnJoin.
  - intros uid error. rewrite screen_deliver_OnError.
    split; [by destruct (state_meetingState c) | by intros ->].
  - intros isHLSViewer reduxState now poll ty. unfold screen, deliver.
    change (meetingStateAfter (state_meetingState c)
              (handle (state_meetingState c)
                 (OnPollUpdate isHLSViewer reduxState now poll ty)))
      with (step (state_meetingState c)
              (OnPollUpdate isHLSViewer reduxState now poll ty)).
    rewrite step_OnPollUpdate.
    rewrite (peerTrackNodesAfter_other _ (OnPollUpdate _ _ _ _ _))
      by reflexivity.
    unfold handle. by rewrite onPollUpdate_frame.
  - reflexivity.
Qed.

(** X10.  A join attempt made from the preview screen shows the preview
    with its button loading, whether the attempt fails or not, and an
    error event that then arrives shows the preview with the button not
    loading again. *)
Theorem join_attempt_then_error c getConfig join setAlwaysScreenOn :
  state_meetingState c = IN_PREVIEW ->
  let c' := attempt c (Attempt.joinMeeting getConfig join setAlwaysScreenOn) in
  screen c' = Screens.Preview true
  /\ (forall uid error,
       screen (deliver c' (OnError uid error)) = Screens.Preview false).
Proof.
  intros Hs c'. split.
  - unfold screen, c', attempt. simpl. rewrite Hs. simpl.
    by destruct getConfig, join, setAlwaysScreenOn.
  - intros uid error. rewrite screen_deliver_OnError.
    unfold c', attempt. simpl. by rewrite Hs.
Qed.

(** *** The texts of an error *)

Lemma append_nonempty (s1 s2 : string) : s2 <> "" -> s1 +:+ s2 <> "".
Proof. destruct s1; simpl; [done | discriminate]. Qed.

Lemma orElse_nonempty a b : b <> "" -> orElse a b <> "".
Proof.
  unfold orElse. intros Hb.
  destruct (decide (a = "")) as [-> | Ha].
  - by rewrite bool_decide_eq_true_2.
  - by rewrite bool_decide_eq_false_2.
Qed.

(** X11.  The alert of a terminal error is titled with the error code in
    decimal and its message is the description, or 'Something went
    wrong' for an empty description, so never empty.  The toast of a
    non-terminal error is always the code, a space and the description:
    its fallback text is never used. *)
Theorem error_texts meetingState uid error :
  (forall title message onPress,
     AlertAlert title message onPress
       ∈ hmsErrorHandler meetingState uid error ->
     title = pretty (code error)
     /\ message <> ""
     /\ (description error <> "" -> message = description error)
     /\ (description error = "" -> message = "Something went wrong"))
  /\ (forall message,
       ToastShowWithGravity message
         ∈ hmsErrorHandler meetingState uid error ->
       message = pretty (code error) +:+ " " +:+ description error).
Proof.
  assert (Htoast :
    orElse (pretty (code error) +:+ " " +:+ description error)
           "Something went wrong"
    = pretty (code error) +:+ " " +:+ description error).
  { unfold orElse. rewrite bool_decide_eq_false_2; [reflexivity |].
    apply append_nonempty. discriminate. }
  destruct (decide (meetingState = IN_MEETING)) as [-> | Hne].
  - rewrite hmsErrorHandler_in_meeting. split.
    + intros title message onPress H%list_elem_of_singleton. discriminate.
    + intros message H%list_elem_of_singleton. discriminate.
  - rewrite hmsErrorHandler_not_in_meeting by exact Hne.
    destruct (terminalError error); split.
    + intros title message onPress [H | H]%elem_of_cons; [discriminate |].
      apply list_elem_of_singleton in H. injection H as -> -> _.
      split; [reflexivity |]. split; [by apply orElse_nonempty |].
      unfold orElse. split; intros Hd.
      * by rewrite bool_decide_eq_false_2.
      * by rewrite bool_decide_eq_true_2.
    + intros message [H | H]%elem_of_cons; [discriminate |].
      apply list_elem_of_singleton in H. discriminate.
    + intros title message onPress [H | H]%elem_of_cons; [discriminate |].
      apply list_elem_of_singleton in H. discriminate.
    + intros message [H | H]%elem_of_cons; [discriminate |].
      apply list_elem_of_singleton in H. injection H as ->. exact Htoast.
Qed.

(** *** The polls of the store *)

Lemma pollsAfter_pollUpdates (polls : gmap string HMSPoll) us :
  pollsAfter polls (pollUpdates polls us) =
  foldl (fun m u => <[pollId (update_poll u) := update_poll u]> m) polls us.
Proof.
  revert polls. induction us as [|u us IH]; intros polls; simpl;
    [reflexivity |].
  by rewrite pollsAfter_app, pollsAfter_onPollUpdate_in, IH.
Qed.

Lemma foldl_insert_other (polls : gmap string HMSPoll)
    (us : list PollUpdate) pid :
  (forall u, u ∈ us -> pollId (update_poll u) <> pid) ->
  foldl (fun m u => <[pollId (update_poll u) := update_poll u]> m) polls us
    !! pid = polls !! pid.
Proof.
  revert polls. induction us as [|u us IH]; intros polls Hus; simpl;
    [reflexivity |].
  rewrite IH by (intros u' Hu'; apply Hus; by right).
  apply lookup_insert_ne. apply Hus. by left.
Qed.

Lemma foldl_insert_dom (polls : gmap string HMSPoll) (us : list PollUpdate) :
  dom polls ⊆
  dom (foldl (fun m u => <[pollId (update_poll u) := update_poll u]> m)
         polls us).
Proof.
  revert polls. induction us as [|u us IH]; intros polls; simpl; [done |].
  etrans; [|apply IH]. rewrite dom_insert_L. set_solver.
Qed.

Lemma addedPolls_app l1 l2 :
  addedPolls (l1 ++ l2) = addedPolls l1 ++ addedPolls l2.
Proof. unfold addedPolls, dispatched. by rewrite !omap_app. Qed.

Lemma addedPolls_onPollUpdate isHLSViewer reduxState now poll ty :
  addedPolls (onPollUpdate isHLSViewer reduxState now poll ty) = [poll].
Proof. unfold onPollUpdate. split_conditionals; reflexivity. Qed.

(** X12.  Every poll update hands its poll to the store exactly once,
    whatever the type of the update, the viewer flag, the time or the
    polls already in the store: over any sequence of updates the polls
    handed over are those of the updates, in the order received. *)
Theorem poll_updates_reach_store (polls : gmap string HMSPoll) us :
  addedPolls (pollUpdates polls us) = update_poll <$> us.
Proof.
  revert polls. induction us as [|u us IH]; intros polls; simpl;
    [reflexivity |].
  rewrite addedPolls_app, IH. unfold onPollUpdate_in.
  by rewrite addedPolls_onPollUpdate.
Qed.

(** *** Who is told about a poll *)

Lemma onPollUpdate_alt isHLSViewer reduxState now poll ty :
  onPollUpdate isHLSViewer reduxState now poll ty =
  (match createdBy poll, hmsStates_localPeer reduxState with
   | Some creator, Some lp =>
       if bool_decide (peerID creator = peerID lp)
       then [SendHLSTimedMetadata 20 ("poll:" +:+ pollId poll)] else []
   | _, _ => []
   end)
  ++ [Dispatch (addPoll poll)]
  ++ (if bool_decide (ty = started)
         && bool_decide
              (getProperty (polls_polls reduxState) (pollId poll) = None)
         && (if isHLSViewer
             then match startedAt poll with
                  | Some t => (now - t >=? 20000)%Z
                  | None => false
                  end
             else true)
      then Dispatch (addNotification (pollNotification poll ty))
           :: (if isHLSViewer then [Dispatch (addCuedPollId (pollId poll))]
               else [])
      else []).
Proof.
  unfold onPollUpdate. f_equal. simpl. f_equal.
  destruct (bool_decide (ty = started)),
    (bool_decide (getProperty (polls_polls reduxState) (pollId poll) = None)),
    isHLSViewer; simpl; try reflexivity.
  destruct (startedAt poll) as [t|]; [|reflexivity].
  by destruct (now - t >=? 20000)%Z.
Qed.

Lemma metadata_no_notification poll (localPeer : option HMSPeer) pid :
  pollNotificationsFor pid
    (match createdBy poll, localPeer with
     | Some creator, Some lp =>
         if bool_decide (peerID creator = peerID lp)
         then [SendHLSTimedMetadata 20 ("poll:" +:+ pollId poll)] else []
     | _, _ => []
     end) = 0%nat.
Proof. split_conditionals; reflexivity. Qed.

Lemma onPollUpdate_count isHLSViewer reduxState now poll ty :
  pollNotificationsFor (pollId poll)
    (onPollUpdate isHLSViewer reduxState now poll ty)
  = if bool_decide (ty = started)
       && bool_decide
            (getProperty (polls_polls reduxState) (pollId poll) = None)
       && (if isHLSViewer
           then match startedAt poll with
                | Some t => (now - t >=? 20000)%Z
                | None => false
                end
           else true)
    then 1%nat else 0%nat.
Proof.
  rewrite onPollUpdate_alt, !pollNotificationsFor_app.
  rewrite metadata_no_notification.
  destruct (_ && _ && _); [|reflexivity].
  unfold pollNotificationsFor. simpl.
  rewrite bool_decide_eq_true_2 by reflexivity.
  by destruct isHLSViewer.
Qed.

(** X13.  A user who is not a viewer is told about a poll exactly when
    the update says the poll started, the store does not hold it yet and
    its id is not the name of a member that the polls object inherits,
    however long ago it started.  An update of any other type tells
    nobody.  The poll id is recorded as cued exactly when a viewer is
    told. *)
Theorem poll_notification_cases isHLSViewer reduxState now poll ty :
  let effects := onPollUpdate isHLSViewer reduxState now poll ty in
  (isHLSViewer = false ->
     (pollNotificationsFor (pollId poll) effects = 1%nat <->
        ty = started /\ polls_polls reduxState !! pollId poll = None
        /\ pollId poll ∉ Object_prototype))
  /\ (ty <> started ->
     forall pid, pollNotificationsFor pid effects = 0%nat)
  /\ (forall pid,
       Dispatch (addCuedPollId pid) ∈ effects <->
       pid = pollId poll /\ isHLSViewer = true
       /\ pollNotificationsFor (pollId poll) effects = 1%nat).
Proof.
  intros effects. subst effects. split; [|split].
  - intros ->. rewrite onPollUpdate_count, andb_true_r.
    destruct (decide (ty = started)) as [-> | Hty].
    + rewrite (bool_decide_eq_true_2 (started = started)) by reflexivity.
      simpl. rewrite <- getProperty_None.
      case_bool_decide; split; try done. intros [_ ?]. done.
    + rewrite (bool_decide_eq_false_2 (ty = started)) by exact Hty.
      simpl. split; [discriminate | intros [? _]; done].
  - intros Hty pid.
    destruct (decide (pollId poll = pid)) as [<- | Hne].
    + rewrite onPollUpdate_count.
      by rewrite (bool_decide_eq_false_2 (ty = started)) by exact Hty.
    + by apply onPollUpdate_other.
  - intros pid. rewrite onPollUpdate_count, onPollUpdate_alt.
    rewrite !elem_of_app.
    destruct (_ && _ && _); destruct isHLSViewer;
      split_conditionals;
      rewrite ?elem_of_cons, ?elem_of_nil;
      intuition (try discriminate; try congruence).
Qed.

(** X14.  Timed metadata for the HLS stream is sent for every update of a
    poll that the local peer created, whatever the type of the update,
    the viewer flag or the time: one entry of duration 20 with the
    payload poll: followed by the poll id.  It is never sent when the
    poll has no creator, the store has no local peer, or their peer ids
    differ. *)
Theorem poll_timed_metadata isHLSViewer reduxState now poll ty duration
    payload :
  SendHLSTimedMetadata duration payload
    ∈ onPollUpdate isHLSViewer reduxState now poll ty
  <->
  duration = 20 /\ payload = "poll:" +:+ pollId poll
  /\ exists creator lp,
       createdBy poll = Some creator
       /\ hmsStates_localPeer reduxState = Some lp
       /\ peerID creator = peerID lp.
Proof.
  rewrite onPollUpdate_alt, !elem_of_app.
  assert (Hrest : forall l : list Effect,
    (forall e, e ∈ l -> exists a, e = Dispatch a) ->
    ~ SendHLSTimedMetadata duration payload ∈ l).
  { intros l Hl Hin. destruct (Hl _ Hin) as [a ?]. discriminate. }
  split.
  - intros [H | [H | H]].
    + destruct (createdBy poll) as [creator|];
        [|by apply elem_of_nil in H].
      destruct (hmsStates_localPeer reduxState) as [lp|];
        [|by apply elem_of_nil in H].
      case_bool_decide; [|by apply elem_of_nil in H].
      apply list_elem_of_singleton in H. injection H as -> ->. eauto 10.
    + apply list_elem_of_singleton in H. discriminate.
    + exfalso. revert H. apply Hrest. intros e.
      destruct (_ && _ && _); destruct isHLSViewer;
        rewrite ?elem_of_cons, ?elem_of_nil; intuition eauto.
  - intros (-> & -> & creator & lp & -> & -> & Hid). left.
    rewrite bool_decide_eq_true_2 by exact Hid. by left.
Qed.

Lemma length_append (s1 s2 : string) :
  String.length (s1 +:+ s2) = (String.length s1 + String.length s2)%nat.
Proof. induction s1; simpl; [reflexivity | by rewrite IHs1]. Qed.

Lemma append_inj_l (s1 s2 t : string) : s1 +:+ t = s2 +:+ t -> s1 = s2.
Proof.
  revert s2. induction s1 as [|a s1 IH]; intros [|b s2] H.
  - reflexivity.
  - apply (f_equal String.length) in H.
    rewrite !length_append in H. simpl in H. lia.
  - apply (f_equal String.length) in H.
    rewrite !length_append in H. simpl in H. lia.
  - injection H as -> H. by rewrite (IH _ H).
Qed.

(** X15.  The ids of the poll notifications tell the polls apart: two
    notifications of the same update type have the same id only when
    their polls have the same poll id. *)
Theorem poll_notification_id_injective poll1 poll2 ty :
  notificationId (pollNotification poll1 ty)
  = notificationId (pollNotification poll2 ty) ->
  pollId poll1 = pollId poll2.
Proof. simpl. apply append_inj_l. Qed.

(** *** Joining: the chat and picture in picture *)

Lemma elem_of_onJoinHandler_dispatch reduxState data_room a :
  Dispatch a ∈ onJoinHandler reduxState data_room <->
  Dispatch a ∈ onJoin_batch reduxState data_room
  \/ (selectShouldGoLive reduxState = true
      /\ a = changeStartingHLSStream true)
  \/ a = changeMeetingState IN_MEETING.
Proof.
  unfold onJoinHandler, startHLSStreaming. rewrite !elem_of_app.
  destruct (selectShouldGoLive reduxState);
    rewrite ?elem_of_cons, ?elem_of_nil;
    intuition (try discriminate; try congruence).
Qed.

(** X16.  Joining opens the chat view exactly when the layout of the role
    has a chat configuration that is an overlay with the initial state
    open, and never closes it. *)
Theorem join_opens_chat reduxState data_room showChatView :
  Dispatch (SET_SHOW_CHAT_VIEW showChatView)
    ∈ onJoinHandler reduxState data_room
  <->
  showChatView = true
  /\ exists chatConfig,
       selectChatLayoutConfig
         (selectLayoutConfigForRole (hmsStates_layoutConfig reduxState)
            (role (localPeer data_room))) = Some chatConfig
       /\ truthy (is_overlay chatConfig) = true
       /\ initial_state chatConfig = Some CHAT_STATE_OPEN.
Proof.
  rewrite elem_of_onJoinHandler_dispatch. unfold onJoin_batch.
  rewrite !elem_of_app.
  set (layout := selectLayoutConfigForRole _ _).
  assert (Hother :
    ~ Dispatch (SET_SHOW_CHAT_VIEW showChatView)
        ∈ (if canCreateTileOf (localPeer data_room) layout
           then (match app_localPeerTrackNode reduxState with
                 | Some _ =>
                     [Dispatch (updateLocalPeerTrackNode (localPeer data_room)
                                  (videoTrack (localPeer data_room)))]
                 | None =>
                     [Dispatch (setLocalPeerTrackNode
                                  (createPeerTrackNode (localPeer data_room)
                                     (videoTrack (localPeer data_room))))]
                 end)
                ++ (if truthy (enableLocalTileInsetOf layout)
                    then [Dispatch (setMiniViewPeerTrackNode
                                      (createPeerTrackNode
                                         (localPeer data_room)
                                         (videoTrack (localPeer data_room))))]
                    else [])
           else [])).
  { split_conditionals; rewrite ?elem_of_app, ?elem_of_cons, ?elem_of_nil;
      intuition discriminate. }
  assert (Hrole :
    ~ Dispatch (SET_SHOW_CHAT_VIEW showChatView)
        ∈ (match role (localPeer data_room) with
           | Some r => [Dispatch (setInitialRole r)]
           | None => []
           end)).
  { split_conditionals; rewrite ?elem_of_cons, ?elem_of_nil;
      intuition discriminate. }
  assert (Hfixed :
    ~ Dispatch (SET_SHOW_CHAT_VIEW showChatView)
        ∈ [Dispatch (setHMSRoomState data_room);
           Dispatch (setHMSLocalPeerState (localPeer data_room))]).
  { rewrite ?elem_of_cons, ?elem_of_nil. intuition discriminate. }
  assert (Hchat :
    Dispatch (SET_SHOW_CHAT_VIEW showChatView)
      ∈ (if bool_decide
              (selectChatLayoutConfig layout ≫= (fun c =>
                 if truthy (is_overlay c) then initial_state c else None)
               = Some CHAT_STATE_OPEN)
         then [Dispatch (SET_SHOW_CHAT_VIEW true)] else [])
    <-> showChatView = true
        /\ exists chatConfig,
             selectChatLayoutConfig layout = Some chatConfig
             /\ truthy (is_overlay chatConfig) = true
             /\ initial_state chatConfig = Some CHAT_STATE_OPEN).
  { case_bool_decide as Hopen.
    - rewrite list_elem_of_singleton. split.
      + intros [= ->]. split; [reflexivity |].
        destruct (selectChatLayoutConfig layout) as [c|]; [|discriminate].
        simpl in Hopen.
        destruct (truthy (is_overlay c)) eqn:Hoverlay; [|discriminate].
        eauto.
      + by intros [-> _].
    - rewrite elem_of_nil. split; [done |].
      intros (_ & c & Hc & Hoverlay & Hinitial). apply Hopen.
      rewrite Hc. simpl. by rewrite Hoverlay. }
  split.
  - intros [[HA | [HB | [HC | HD]]] | [[_ H] | H]]; try discriminate.
    + by apply Hchat.
    + exfalso. by apply Hother.
    + exfalso. by apply Hfixed.
    + exfalso. by apply Hrole.
  - intros H. left; left. by apply Hchat.
Qed.

(** X17.  When the list is empty at join, the meeting screen asks for
    automatic picture in picture exactly when the tile of the local peer
    was put in the list, that is when the local tile is not inset and
    the peer may have a tile; the content shown carries the tiles only
    when HLS is not starting and the user is not a viewer. *)
Theorem meeting_after_first_join reduxState data_room startingHLSStream
    isHLSViewer :
  let nodes := peerTrackNodesAfter [] (onJoinHandler reduxState data_room) in
  let layout :=
    selectLayoutConfigForRole (hmsStates_layoutConfig reduxState)
                              (role (localPeer data_room)) in
  Screens.autoPip (Screens.Meeting startingHLSStream isHLSViewer nodes)
  = negb (truthy (enableLocalTileInsetOf layout))
    && canCreateTileOf (localPeer data_room) layout
  /\ (Screens.content (Screens.Meeting startingHLSStream isHLSViewer nodes)
      = Screens.MeetingScreenContent nodes
      <-> startingHLSStream = false /\ isHLSViewer = false).
Proof.
  intros nodes layout. subst nodes.
  rewrite peerTrackNodesAfter_onJoinHandler.
  rewrite onJoin_setPeerTrackNodes_absent by reflexivity.
  fold layout. split.
  - by destruct (negb _ && _).
  - simpl. destruct startingHLSStream, isHLSViewer; split;
      try discriminate; try (intros [? ?]; discriminate); done.
Qed.

(** X18.  A user who is not a viewer is told exactly once about a poll
    whose started update finds it new to the store, and whose id is not
    the name of a member that the polls object inherits, however long
    ago the poll started and whatever updates follow. *)
Theorem poll_non_viewer_once (polls : gmap string HMSPoll) u us :
  update_isHLSViewer u = false ->
  update_type u = started ->
  polls !! pollId (update_poll u) = None ->
  pollId (update_poll u) ∉ Object_prototype ->
  pollNotificationsFor (pollId (update_poll u)) (pollUpdates polls (u :: us))
  = 1%nat.
Proof.
  intros Hviewer Hty Hnew Hproto. simpl.
  rewrite pollNotificationsFor_app, pollsAfter_onPollUpdate_in.
  rewrite pollUpdates_known by apply getProperty_insert.
  unfold onPollUpdate_in. rewrite onPollUpdate_count, Hviewer, Hty. simpl.
  rewrite bool_decide_eq_true_2; [reflexivity |].
  by apply getProperty_None.
Qed.

End HMSRoomSetup.

(** ** Listener registration *)

Section LifecycleProperties.

Import Lifecycle.

Lemma runCleanup_eventListeners cs sdk a :
  a ∈ eventListeners (foldl runCleanup sdk cs) <->
  a ∈ eventListeners sdk /\ RemoveEventListener a ∉ cs.
Proof.
  revert sdk. induction cs as [|c cs IH]; intros sdk; simpl.
  - set_solver.
  - rewrite IH. destruct c as [b | i]; simpl; set_solver.
Qed.

Lemma runCleanup_subscriptions cs sdk i :
  i ∈ subscriptions (foldl runCleanup sdk cs) <->
  i ∈ subscriptions sdk /\ SubscriptionRemove i ∉ cs.
Proof.
  revert sdk. induction cs as [|c cs IH]; intros sdk; simpl.
  - set_solver.
  - rewrite IH. destruct c as [b | j]; simpl; set_solver.
Qed.

Lemma unmount_covered sdk m :
  covered (snd <$> m) sdk ->
  eventListeners (unmount (sdk, m)) = ∅
  /\ subscriptions (unmount (sdk, m)) = ∅.
Proof.
  intros [Hl Hs]. unfold unmount. split; apply elem_of_equiv_empty_L.
  - intros a [Ha Hna]%runCleanup_eventListeners. auto.
  - intros i [Hi Hni]%runCleanup_subscriptions. auto.
Qed.

(** What an effect registers is what its cleanup removes. *)
Lemma setup_registers e sdk :
  (forall a, a ∈ eventListeners (setup e sdk).1 ->
     a ∈ eventListeners sdk \/ (setup e sdk).2 = RemoveEventListener a)
  /\ (forall i, i ∈ subscriptions (setup e sdk).1 ->
     i ∈ subscriptions sdk \/ (setup e sdk).2 = SubscriptionRemove i).
Proof. destruct e; simpl; split; intros x; set_solver. Qed.

Lemma rerunEffects_registers changed m sdk :
  let '(sdk', m') := rerunEffects changed m sdk in
  (forall a, a ∈ eventListeners sdk' ->
     a ∈ eventListeners sdk \/ RemoveEventListener a ∈ snd <$> m')
  /\ (forall i, i ∈ subscriptions sdk' ->
     i ∈ subscriptions sdk \/ SubscriptionRemove i ∈ snd <$> m')
  /\ (forall e c, (e, c) ∈ m -> changed e = false -> c ∈ snd <$> m').
Proof.
  revert sdk. induction m as [|[e c] m IH]; intros sdk; simpl.
  - repeat split; intros; set_solver.
  - destruct (changed e) eqn:Hch.
    + pose proof (setup_registers e sdk) as [Hl Hs].
      destruct (setup e sdk) as [sdk1 c1]. simpl in *.
      specialize (IH sdk1).
      destruct (rerunEffects changed m sdk1) as [sdk2 m2].
      destruct IH as (IHl & IHs & IHk). repeat split.
      * intros a [Ha | Ha]%IHl; [|set_solver].
        destruct (Hl a Ha) as [? | ->]; set_solver.
      * intros i [Hi | Hi]%IHs; [|set_solver].
        destruct (Hs i Hi) as [? | ->]; set_solver.
      * intros e' c' [[= -> ->] | Hin]%elem_of_cons Hch'; [congruence |].
        rewrite fmap_cons. right. eauto.
    + specialize (IH sdk).
      destruct (rerunEffects changed m sdk) as [sdk2 m2].
      destruct IH as (IHl & IHs & IHk). repeat split.
      * intros a [Ha | Ha]%IHl; set_solver.
      * intros i [Hi | Hi]%IHs; set_solver.
      * intros e' c' [[= -> ->] | Hin]%elem_of_cons Hch'.
        -- set_solver.
        -- rewrite fmap_cons. right. eauto.
Qed.

Lemma stale_or_kept (changed : ListenerEffect -> bool) (m : Mounted) c :
  c ∈ snd <$> m ->
  c ∈ snd <$> filter (fun ec => changed ec.1 = true) m
  \/ exists e, (e, c) ∈ m /\ changed e = false.
Proof.
  intros ([e c'] & -> & Hin)%list_elem_of_fmap. simpl.
  destruct (changed e) eqn:Hch.
  - left. apply list_elem_of_fmap. exists (e, c'). split; [done |].
    apply list_elem_of_filter. done.
  - right. eauto.
Qed.

Lemma rerender_covered sdk m changed :
  covered (snd <$> m) sdk ->
  covered (snd <$> (rerender (sdk, m) changed).2)
          (rerender (sdk, m) changed).1.
Proof.
  intros [Hl Hs].
  set (stale := snd <$> filter (fun ec => changed ec.1 = true) m).
  pose proof (rerunEffects_registers changed m (foldl runCleanup sdk stale))
    as Hrerun.
  change (rerunEffects changed m (foldl runCleanup sdk stale))
    with (rerender (sdk, m) changed) in Hrerun.
  destruct (rerender (sdk, m) changed) as [sdk' m'].
  destruct Hrerun as (Hl' & Hs' & Hkept). simpl. split.
  - intros a [[Ha Hna]%runCleanup_eventListeners | Ha]%Hl'; [|done].
    destruct (stale_or_kept changed m _ (Hl a Ha)) as [? | (e & ? & ?)];
      [done | eauto].
  - intros i [[Hi Hni]%runCleanup_subscriptions | Hi]%Hs'; [|done].
    destruct (stale_or_kept changed m _ (Hs i Hi)) as [? | (e & ? & ?)];
      [done | eauto].
Qed.

Lemma runEffects_registers es sdk :
  let '(sdk', m) := runEffects es sdk in
  (forall a, a ∈ eventListeners sdk' ->
     a ∈ eventListeners sdk \/ RemoveEventListener a ∈ snd <$> m)
  /\ (forall i, i ∈ subscriptions sdk' ->
     i ∈ subscriptions sdk \/ SubscriptionRemove i ∈ snd <$> m)
  /\ fst <$> m = es.
Proof.
  revert sdk. induction es as [|e es IH]; intros sdk; simpl.
  - repeat split; intros; set_solver.
  - pose proof (setup_registers e sdk) as [Hl Hs].
    destruct (setup e sdk) as [sdk1 c1]. simpl in *.
    specialize (IH sdk1). destruct (runEffects es sdk1) as [sdk2 m2].
    destruct IH as (IHl & IHs & IHe). repeat split.
    + intros a [Ha | Ha]%IHl; [|set_solver].
      destruct (Hl a Ha) as [? | ->]; set_solver.
    + intros i [Hi | Hi]%IHs; [|set_solver].
      destruct (Hs i Hi) as [? | ->]; set_solver.
    + rewrite fmap_cons. simpl. by f_equal.
Qed.

Lemma mount_covered android :
  covered (snd <$> (mount android emptySDK).2) (mount android emptySDK).1.
Proof.
  unfold mount.
  pose proof (runEffects_registers (listenerEffects android) emptySDK) as H.
  destruct (runEffects (listenerEffects android) emptySDK) as [sdk m].
  destruct H as (Hl & Hs & _). simpl. split.
  - intros a [Ha | Ha]%Hl; [set_solver | done].
  - intros i [Hi | Hi]%Hs; [set_solver | done].
Qed.

Lemma renders_covered st renders :
  covered (snd <$> st.2) st.1 ->
  covered (snd <$> (foldl rerender st renders).2)
          (foldl rerender st renders).1.
Proof.
  revert st. induction renders as [|changed renders IH]; intros [sdk m] H;
    simpl; [exact H |].
  apply IH. by apply rerender_covered.
Qed.

(** C8.  Each listener the component registers when it mounts (error,
    preview, join, permissions requested on Android, poll updates,
    whiteboard updates) comes with a cleanup that removes it, and after
    any number of renders, whichever effects they run again, unmounting
    leaves no listener and no subscription on the SDK. *)
Theorem listeners_removed_on_unmount android renders :
  eventListeners (mount android emptySDK).1 =
    {[ON_ERROR; ON_PREVIEW; ON_JOIN]}
    ∪ (if android then {[ON_PERMISSIONS_REQUESTED]} else ∅)
  /\ subscriptions (mount android emptySDK).1 = {[0%nat; 1%nat]}
  /\ fst <$> (mount android emptySDK).2 = listenerEffects android
  /\ eventListeners (lifetime android renders) = ∅
  /\ subscriptions (lifetime android renders) = ∅.
Proof.
  split; [|split; [|split]].
  - destruct android; simpl; set_solver.
  - destruct android; simpl; set_solver.
  - destruct android; reflexivity.
  - unfold lifetime.
    pose proof (renders_covered _ renders (mount_covered android)) as H.
    destruct (foldl rerender (mount android emptySDK) renders) as [sdk m].
    by apply unmount_covered.
Qed.

End LifecycleProperties.

(** ** The automatic preview or join *)

Section AutoInitProperties.

Import AutoInit.

Lemma initiations_app l1 l2 :
  initiations (l1 ++ l2) = (initiations l1 + initiations l2)%nat.
Proof. unfold initiations. by rewrite List.filter_app, length_app. Qed.

Lemma handleMeetingPreviewOrJoin_once r :
  initiations (handleMeetingPreviewOrJoin r)
  = if getConfig_resolves r then 1%nat else 0%nat.
Proof.
  unfold handleMeetingPreviewOrJoin.
  destruct (getConfig_resolves r); [|reflexivity].
  destruct (skipPreview r || truthy (skip_preview_screen r));
    [|reflexivity].
  by destruct (bool_decide (username r = "")).
Qed.

(** Once the ref is set, no run of the effect calls anything. *)
Lemma runs_guarded rs : runs true rs = (true, []).
Proof.
  induction rs as [|r rs IH]; simpl; [reflexivity |].
  unfold autoInitEffect. rewrite andb_false_r. by rewrite IH.
Qed.

(** The ref is never cleared. *)
Lemma autoInitEffect_keeps_guard r :
  (autoInitEffect true r).1 = true.
Proof. unfold autoInitEffect. by rewrite andb_false_r. Qed.

(** C9.  The automatic preview or join is guarded by the ref
    [didInitMeetingAction], false when the component is created: over
    any sequence of runs of the effect, whatever each run sees, join or
    preview is initiated at most once, and a run that finds the ref set
    initiates nothing and leaves it set. *)
Theorem auto_init_at_most_once rs :
  (initiations (runs false rs).2 <= 1)%nat
  /\ (runs true rs).2 = []
  /\ (forall r, autoInitEffect true r = (true, [])).
Proof.
  split; [|split].
  - induction rs as [|r rs IH]; simpl; [unfold initiations; simpl; lia |].
    unfold autoInitEffect. destruct (meetingEnded r); simpl.
    + destruct (runs false rs) as [d calls]. exact IH.
    + rewrite runs_guarded. simpl. rewrite app_nil_r.
      rewrite handleMeetingPreviewOrJoin_once.
      destruct (getConfig_resolves r); lia.
  - by rewrite runs_guarded.
  - intros r. unfold autoInitEffect. by rewrite andb_false_r.
Qed.

End AutoInitProperties.

(** ** The join button of the preview *)

Section JoinButtonProperties.

Import HMSPreviewJoinButton.

Lemma userNameInvalid_empty userName :
  userNameInvalid userName = true <-> userName = "".
Proof.
  unfold userNameInvalid. destruct userName; simpl; [done |].
  split; discriminate.
Qed.

(** C10.  The join button is disabled exactly when the stored user name
    is empty (its length is at most 0) or a join or preview is in
    progress; with a name and no operation in progress it is enabled. *)
Theorem join_button_disabled userName shouldGoLive goLiveBtnLabel
    joinTitle isLoading :
  let button :=
    render userName shouldGoLive goLiveBtnLabel joinTitle isLoading in
  (disabled button = true <->
     (String.length userName <= 0)%nat \/ isLoading = true)
  /\ (userName <> "" -> isLoading = false -> disabled button = false).
Proof.
  simpl. split.
  - rewrite orb_true_iff. unfold userNameInvalid.
    by rewrite Nat.leb_le.
  - intros Hname ->. rewrite orb_false_r.
    destruct (userNameInvalid userName) eqn:Hinvalid; [|reflexivity].
    by apply userNameInvalid_empty in Hinvalid.
Qed.

End JoinButtonProperties.


(** ** The handlers on the sample data *)

Arguments OnError {LayoutConfig}.
Arguments OnPreview {LayoutConfig}.
Arguments OnJoin {LayoutConfig}.
Arguments OnPollUpdate {LayoutConfig}.
Arguments OnWhiteboardUpdate {LayoutConfig}.
Arguments mkPollUpdate {LayoutConfig}.
Arguments onJoinHandler {LayoutConfig Layout}.
Arguments onPollUpdate {LayoutConfig}.
Arguments pollUpdates {LayoutConfig}.
Arguments handle TerminalExceptionCodes {LayoutConfig Layout}.
Arguments meetingStates TerminalExceptionCodes {LayoutConfig Layout}.

Section OnSampleData.

Import Sample.

Local Abbreviation onJoin :=
  (onJoinHandler selectLayoutConfigForRole selectIsHLSViewer
     selectVideoTileLayoutConfig selectChatLayoutConfig isPublishingAllowed
     selectShouldGoLive).

Local Abbreviation listener :=
  (handle TerminalExceptionCodes selectLayoutConfigForRole selectIsHLSViewer
     selectVideoTileLayoutConfig selectChatLayoutConfig isPublishingAllowed
     pollUpdateTypeValue selectShouldGoLive).

Local Abbreviation statesAlong :=
  (meetingStates TerminalExceptionCodes selectLayoutConfigForRole
     selectIsHLSViewer selectVideoTileLayoutConfig selectChatLayoutConfig
     isPublishingAllowed pollUpdateTypeValue selectShouldGoLive).

Local Abbreviation hostNode := (createPeerTrackNode host (videoTrack host)).

(** With the local tile inset and nothing in the list, the join handler
    leaves the list empty. *)
Example onJoin_inset :
  peerTrackNodesAfter [] (onJoin (store (Some true)) meetingRoom) = [].
Proof. reflexivity. Qed.

(** Without the inset the node of the host comes first. *)
Example onJoin_no_inset :
  peerTrackNodesAfter [] (onJoin (store None) meetingRoom) = [hostNode].
Proof. reflexivity. Qed.

Example hmsErrorHandler_terminal_in_meeting :
  hmsErrorHandler TerminalExceptionCodes IN_MEETING "n1" networkDown
  = [Dispatch (addNotification (TerminalErrorNotification "n1" networkDown))].
Proof. reflexivity. Qed.

Example hmsErrorHandler_non_terminal_in_preview :
  hmsErrorHandler TerminalExceptionCodes IN_PREVIEW "n1" trackFailure
  = [SetLoading false; ToastShowWithGravity "3001 Cannot access camera"].
Proof. vm_compute. reflexivity. Qed.

(** C1, on the sample data: a join while the list holds the node of the
    host keeps the list free of duplicates. *)
Lemma peerTrackNodes_unique_witness :
  uniquePeerTrack [hostNode]
  /\ uniquePeerTrack
       (peerTrackNodesAfter [hostNode]
          (listener IN_PREVIEW (OnJoin (store None) meetingRoom))).
Proof.
  assert (H : uniquePeerTrack [hostNode]) by apply NoDup_singleton.
  split; [exact H |].
  exact (proj1 (proj2 (peerTrackNodes_unique TerminalExceptionCodes _ _
           selectLayoutConfigForRole selectIsHLSViewer
           selectVideoTileLayoutConfig selectChatLayoutConfig
           isPublishingAllowed pollUpdateTypeValue selectShouldGoLive))
         IN_PREVIEW (OnJoin (store None) meetingRoom) [hostNode] H).
Defined.

(** C2 as stated fails: no node exists for the local peer, the local tile
    is inset, and the local node is not prepended. *)
Lemma join_prepend_counterexample :
  peerTrackNodeExistForPeer [] host = false
  /\ peerTrackNodesAfter [] (onJoin (store (Some true)) meetingRoom)
     <> hostNode :: [].
Proof. split; [reflexivity |]. rewrite onJoin_inset. discriminate. Qed.

(** C2 (amended), on the sample data: without the inset the node of the
    host is prepended. *)
Lemma join_updates_rendering_list_witness :
  peerTrackNodeExistForPeer [] host = false
  /\ peerTrackNodesAfter [] (onJoin (store None) meetingRoom) = [hostNode].
Proof.
  split; [reflexivity |].
  apply (join_updates_rendering_list _ _ selectLayoutConfigForRole
           selectIsHLSViewer selectVideoTileLayoutConfig
           selectChatLayoutConfig isPublishingAllowed selectShouldGoLive
           (store None) meetingRoom []); reflexivity.
Defined.

(** C3 as stated fails: a terminal error during the active meeting shows
    no dialog, so no [destroy] behind a confirmation. *)
Lemma terminal_error_in_meeting_counterexample :
  terminalError TerminalExceptionCodes networkDown = true
  /\ ~ showsAlert
         (hmsErrorHandler TerminalExceptionCodes IN_MEETING "n1" networkDown).
Proof.
  split; [reflexivity |]. intros (title & message & c & H).
  rewrite hmsErrorHandler_terminal_in_meeting in H.
  apply list_elem_of_singleton in H. discriminate.
Qed.

(** C3 (amended), on the sample data: during preview the dialog leads to
    [leave]. *)
Lemma terminal_error_paths_witness :
  terminalError TerminalExceptionCodes networkDown = true
  /\ confirmsWith
       (hmsErrorHandler TerminalExceptionCodes IN_PREVIEW "n1" networkDown)
       (leave NETWORK_ISSUES).
Proof.
  split; [reflexivity |]. unfold confirmsWith.
  rewrite (proj1 (terminal_error_paths TerminalExceptionCodes IN_PREVIEW
                    "n1" networkDown eq_refl) eq_refl).
  eexists _, _. apply list_elem_of_further, list_elem_of_here.
Defined.

(** C4 as stated fails: a non-terminal error during preview shows a toast
    and no alert. *)
Lemma non_terminal_error_in_preview_counterexample :
  terminalError TerminalExceptionCodes trackFailure = false
  /\ ~ showsAlert
         (hmsErrorHandler TerminalExceptionCodes IN_PREVIEW "n1" trackFailure)
  /\ showsToast
       (hmsErrorHandler TerminalExceptionCodes IN_PREVIEW "n1" trackFailure).
Proof.
  rewrite hmsErrorHandler_non_terminal_in_preview.
  split; [reflexivity |]. split.
  - intros (title & message & c & H).
    apply elem_of_cons in H as [H | H]; [discriminate |].
    apply list_elem_of_singleton in H. discriminate.
  - eexists. apply list_elem_of_further, list_elem_of_here.
Qed.

(** C4 (amended), on the sample data. *)
Lemma non_terminal_error_paths_witness :
  terminalError TerminalExceptionCodes trackFailure = false
  /\ showsToast
       (hmsErrorHandler TerminalExceptionCodes IN_PREVIEW "n1" trackFailure).
Proof.
  split; [reflexivity |]. unfold showsToast.
  rewrite (proj2 (non_terminal_error_paths TerminalExceptionCodes IN_PREVIEW
                    "n1" trackFailure eq_refl)) by discriminate.
  eexists. apply list_elem_of_further, list_elem_of_here.
Defined.

(** A poll named after a member that every object inherits reads as
    stored in the empty store, and the viewer hears nothing of it. *)
Example onPollUpdate_inherited_id :
  pollNotificationsFor "constructor"
    (onPollUpdate pollUpdateTypeValue true (store None) 21000
       (mkPoll "constructor" None (Some 1000)) started) = 0%nat.
Proof. reflexivity. Qed.


(** C6 as stated fails: a preview event after a join event takes the
    state from IN_MEETING back to IN_PREVIEW. *)
Lemma meeting_state_backwards_counterexample :
  statesAlong NOT_JOINED
    [OnJoin (store None) meetingRoom; OnPreview previewData]
  = [IN_MEETING; IN_PREVIEW]
  /\ ~ neverBackwards NOT_JOINED
         (statesAlong NOT_JOINED
            [OnJoin (store None) meetingRoom; OnPreview previewData]).
Proof.
  assert (H : statesAlong NOT_JOINED
                [OnJoin (store None) meetingRoom; OnPreview previewData]
              = [IN_MEETING; IN_PREVIEW]) by reflexivity.
  split; [exact H |]. rewrite H. simpl. lia.
Qed.

(** C6 (amended), on the sample data: preview, an error, then join. *)
Lemma meeting_state_transitions_witness :
  neverBackwards NOT_JOINED
    (statesAlong NOT_JOINED
       [OnPreview previewData; OnError "n1" trackFailure;
        OnJoin (store None) meetingRoom]).
Proof.
  apply (proj2 (meeting_state_transitions TerminalExceptionCodes _ _
                  selectLayoutConfigForRole selectIsHLSViewer
                  selectVideoTileLayoutConfig selectChatLayoutConfig
                  isPublishingAllowed pollUpdateTypeValue
                  selectShouldGoLive)).
  - simpl. lia.
  - reflexivity.
Defined.

(** C7 as stated fails: with the inset enabled and the node of the host
    already in the list, the join leaves that node in the list and also
    makes it the mini-view node. *)
Lemma local_tile_in_both_counterexample :
  truthy (enableLocalTileInsetOf _ selectVideoTileLayoutConfig
            (selectLayoutConfigForRole
               (hmsStates_layoutConfig (store (Some true)))
               (role host))) = true
  /\ hostNode ∈ peerTrackNodesAfter [hostNode]
                  (onJoin (store (Some true)) meetingRoom)
  /\ Dispatch (setMiniViewPeerTrackNode hostNode)
       ∈ onJoin (store (Some true)) meetingRoom.
Proof.
  split; [reflexivity |]. split.
  - assert (H : peerTrackNodesAfter [hostNode]
                  (onJoin (store (Some true)) meetingRoom) = [hostNode])
      by reflexivity.
    rewrite H. apply list_elem_of_here.
  - apply onJoinHandler_setMiniView. repeat split.
Qed.

(** C7 (amended), on the sample data: with the inset the node of the
    host goes to the mini view and the list gets no node. *)
Lemma local_tile_routing_witness :
  Dispatch (setMiniViewPeerTrackNode hostNode)
    ∈ onJoin (store (Some true)) meetingRoom
  /\ ~ addsNode [] (onJoin (store (Some true)) meetingRoom).
Proof.
  destruct (local_tile_routing _ _ selectLayoutConfigForRole
              selectIsHLSViewer selectVideoTileLayoutConfig
              selectChatLayoutConfig isPublishingAllowed selectShouldGoLive
              (store (Some true)) meetingRoom []) as (_ & Hinset & _).
  destruct (Hinset eq_refl) as [Hno Hmini].
  split; [exact (Hmini eq_refl) | exact Hno].
Defined.

(** C10, on sample input: a named user who is not joining can press. *)
Lemma join_button_disabled_witness :
  HMSPreviewJoinButton.disabled
    (HMSPreviewJoinButton.render "Ana" false "Go Live" "Join Now" false)
  = false.
Proof.
  apply (proj2 (join_button_disabled "Ana" false "Go Live" "Join Now" false));
    [discriminate | reflexivity].
Defined.

End OnSampleData.

(** ** Join and preview attempts *)

Section AttemptProperties.

Import Attempt.

Lemma joinMeeting_cases getConfig join setAlwaysScreenOn :
  joinMeeting getConfig join setAlwaysScreenOn =
  [Perform (SetLoading true); Keyboard_dismiss]
  ++ match getConfig, join, setAlwaysScreenOn with
     | rejected e, _, _ => [alertError e (leave LEAVE)]
     | resolved c, threw e, _ =>
         [hmsInstance_join c; alertError e (leave LEAVE)]
     | resolved c, returned _, rejected e =>
         [hmsInstance_join c; hmsInstance_setAlwaysScreenOn true;
          alertError e (leave LEAVE)]
     | resolved c, returned _, resolved _ =>
         [hmsInstance_join c; hmsInstance_setAlwaysScreenOn true]
     end.
Proof. by destruct getConfig, join, setAlwaysScreenOn. Qed.

(** X1.  [joinMeeting] sets the loading flag and never clears it, also
    when it fails.  It calls [join] on the SDK exactly when the
    configuration was obtained, with that configuration, and does not
    wait for it: the screen is asked to stay on whenever the call of
    [join] returned, and a [join] that is rejected afterwards shows no
    alert.  One alert is shown when the configuration fails, when the
    call of [join] itself throws or when keeping the screen on fails,
    and none otherwise; its button calls [leave] with the reason
    LEAVE. *)
Theorem joinMeeting_attempt getConfig join setAlwaysScreenOn loading :
  let calls := joinMeeting getConfig join setAlwaysScreenOn in
  loadingAfter loading (performed calls) = true
  /\ (forall c, hmsInstance_join c ∈ calls <-> getConfig = resolved c)
  /\ (hmsInstance_setAlwaysScreenOn true ∈ calls
      <-> (exists c, getConfig = resolved c)
          /\ exists promise, join = returned promise)
  /\ length (List.filter isAlert calls)
     = match getConfig, join, setAlwaysScreenOn with
       | resolved _, returned _, resolved _ => 0%nat
       | _, _, _ => 1%nat
       end
  /\ (forall c error u,
        getConfig = resolved c -> join = returned (rejected error) ->
        setAlwaysScreenOn = resolved u ->
        calls = [Perform (SetLoading true); Keyboard_dismiss;
                 hmsInstance_join c; hmsInstance_setAlwaysScreenOn true])
  /\ (forall title message onPress,
        Perform (AlertAlert title message onPress) ∈ calls ->
        onPress = leave LEAVE).
Proof.
  intros calls. subst calls. rewrite joinMeeting_cases.
  split; [|split; [|split; [|split; [|split]]]].
  - by destruct getConfig, join, setAlwaysScreenOn.
  - intros c.
    destruct getConfig, join, setAlwaysScreenOn; simpl;
      rewrite ?elem_of_cons, ?elem_of_nil; unfold alertError;
      split; intros H; try (intuition congruence);
      injection H as ->; auto.
  - destruct getConfig, join, setAlwaysScreenOn; simpl;
      rewrite ?elem_of_cons, ?elem_of_nil; unfold alertError;
      split;
      try (intros [[? ?] [? ?]]; discriminate);
      try (intros H; intuition discriminate);
      eauto.
  - by destruct getConfig, join, setAlwaysScreenOn.
  - by intros c error u -> -> ->.
  - intros title message onPress.
    destruct getConfig, join, setAlwaysScreenOn; simpl;
      rewrite ?elem_of_cons, ?elem_of_nil; unfold alertError;
      intuition congruence.
Qed.

(** X2.  [previewMeeting] sets the loading flag and never clears it.  It
    calls [preview] on the SDK exactly when the configuration was
    obtained and does not wait for it: a [preview] that is rejected
    afterwards shows no alert.  One alert is shown when the
    configuration fails or the call of [preview] itself throws, and none
    otherwise; its button calls [destroy], not [leave], with the reason
    LEAVE. *)
Theorem previewMeeting_attempt getConfig preview loading :
  let calls := previewMeeting getConfig preview in
  loadingAfter loading (performed calls) = true
  /\ (forall c, hmsInstance_preview c ∈ calls <-> getConfig = resolved c)
  /\ length (List.filter isAlert calls)
     = match getConfig, preview with
       | resolved _, returned _ => 0%nat
       | _, _ => 1%nat
       end
  /\ (forall c error,
        getConfig = resolved c -> preview = returned (rejected error) ->
        calls = [Perform (SetLoading true); hmsInstance_preview c])
  /\ (forall title message onPress,
        Perform (AlertAlert title message onPress) ∈ calls ->
        onPress = destroy LEAVE).
Proof.
  intros calls. subst calls. unfold previewMeeting.
  split; [|split; [|split; [|split]]].
  - by destruct getConfig, preview.
  - intros c.
    destruct getConfig, preview; simpl;
      rewrite ?elem_of_cons, ?elem_of_nil; unfold alertError;
      split; intros H; try (intuition congruence);
      injection H as ->; auto.
  - by destruct getConfig, preview.
  - by intros c error -> ->.
  - intros title message onPress.
    destruct getConfig, preview; simpl;
      rewrite ?elem_of_cons, ?elem_of_nil; unfold alertError;
      intuition congruence.
Qed.

(** X3.  [startHLSStreaming] begins with the two effects the join
    handler performs at once, and the starting flag it last asks for is
    false exactly when the SDK call failed while the component was still
    mounted; after a success, or a failure after unmount, it stays true. *)
Theorem startHLSStreaming_flag ignoreHLSStreamPromise result :
  (exists rest,
     startHLSStreaming_awaited ignoreHLSStreamPromise result
     = startHLSStreaming ++ rest)
  /\ (lastStartingHLSStream
        (startHLSStreaming_awaited ignoreHLSStreamPromise result)
      = Some false
      <-> ignoreHLSStreamPromise = false
          /\ exists error, result = rejected error)
  /\ (lastStartingHLSStream
        (startHLSStreaming_awaited ignoreHLSStreamPromise result)
      = Some true
      <-> ignoreHLSStreamPromise = true
          \/ exists u, result = resolved u).
Proof.
  split; [|split].
  - eexists. reflexivity.
  - destruct ignoreHLSStreamPromise, result as [u | error]; simpl;
      split; try discriminate; try (intros [? [? ?]]; discriminate);
      eauto.
  - destruct ignoreHLSStreamPromise, result as [u | error]; simpl;
      split; try discriminate; eauto;
      intros [? | [? ?]]; discriminate.
Qed.

End AttemptProperties.

(** ** The automatic preview or join, run by run *)

Section AutoInitRuns.

Import AutoInit.

(** The first run that finds the meeting not ended. *)
Lemma runs_first rs :
  runs false rs =
  match List.find (fun r => negb (meetingEnded r)) rs with
  | Some r => (true, handleMeetingPreviewOrJoin r)
  | None => (false, [])
  end.
Proof.
  induction rs as [|r rs IH]; simpl; [reflexivity |].
  unfold autoInitEffect. destruct (meetingEnded r); simpl.
  - rewrite IH. by destruct (List.find _ rs).
  - rewrite runs_guarded. by rewrite app_nil_r.
Qed.

Lemma handleMeetingPreviewOrJoin_calls r :
  handleMeetingPreviewOrJoin r = []
  \/ handleMeetingPreviewOrJoin r = [previewMeeting]
  \/ handleMeetingPreviewOrJoin r = [joinMeeting] /\ username r <> ""
  \/ handleMeetingPreviewOrJoin r = [updateConfig_randomUserId; joinMeeting]
     /\ username r = "".
Proof.
  unfold handleMeetingPreviewOrJoin.
  destruct (getConfig_resolves r); [|by left].
  destruct (skipPreview r || truthy (skip_preview_screen r));
    [|by right; left].
  destruct (decide (username r = "")) as [Heq | Hne].
  - right; right; right. by rewrite bool_decide_eq_true_2.
  - right; right; left. by rewrite bool_decide_eq_false_2.
Qed.

(** X4.  Over any sequence of runs of the effect, the calls made are
    those of the first run that finds the meeting not ended, and the ref
    is set from then on: when the configuration cannot be obtained in
    that run, no later run tries again. *)
Theorem auto_init_first_run rs :
  (runs false rs).2 =
    match List.find (fun r => negb (meetingEnded r)) rs with
    | Some r => handleMeetingPreviewOrJoin r
    | None => []
    end
  /\ ((runs false rs).1 = true <->
      exists r, r ∈ rs /\ meetingEnded r = false)
  /\ (forall r, List.find (fun r => negb (meetingEnded r)) rs = Some r ->
      getConfig_resolves r = false -> (runs false rs).2 = []).
Proof.
  rewrite runs_first. split; [|split].
  - by destruct (List.find _ rs).
  - destruct (List.find _ rs) as [r|] eqn:Hfind; simpl.
    + split; [intros _ | done].
      apply List.find_some in Hfind as [Hin Hr].
      exists r. split; [by apply list_elem_of_In |].
      by apply negb_true_iff.
    + split; [discriminate |]. intros (r & Hin & Hr).
      apply list_elem_of_In in Hin.
      pose proof (List.find_none _ _ Hfind r Hin) as Hnone.
      simpl in Hnone. rewrite Hr in Hnone. discriminate.
  - intros r -> Hr. simpl. unfold handleMeetingPreviewOrJoin.
    by rewrite Hr.
Qed.

(** X5.  Over any sequence of runs the effect never initiates both a
    join and a preview, a random user id is set only on the way to a
    join, and a join with an empty user name is always preceded by
    setting one. *)
Theorem auto_init_join_or_preview rs :
  let calls := (runs false rs).2 in
  ~ (joinMeeting ∈ calls /\ previewMeeting ∈ calls)
  /\ (updateConfig_randomUserId ∈ calls -> joinMeeting ∈ calls)
  /\ (forall r, List.find (fun r => negb (meetingEnded r)) rs = Some r ->
      username r = "" -> joinMeeting ∈ calls ->
      calls = [updateConfig_randomUserId; joinMeeting]).
Proof.
  intros calls. subst calls. rewrite runs_first.
  destruct (List.find _ rs) as [r|]; simpl.
  - assert (Hthird : forall l,
      (username r = "" -> joinMeeting ∈ l ->
       l = [updateConfig_randomUserId; joinMeeting]) ->
      forall r', Some r = Some r' -> username r' = "" -> joinMeeting ∈ l ->
      l = [updateConfig_randomUserId; joinMeeting]).
    { intros l Hl r' [= <-]. exact Hl. }
    destruct (handleMeetingPreviewOrJoin_calls r)
      as [-> | [-> | [[-> Hne] | [-> Heq]]]];
      (split; [|split; [|apply Hthird]]);
      rewrite ?elem_of_cons, ?elem_of_nil; intuition congruence.
  - split; [|split]; rewrite ?elem_of_nil; try tauto. intros r; discriminate.
Qed.

End AutoInitRuns.

(** ** Registrations while mounted *)

Section LifecycleMounted.

Import Lifecycle LifecycleState.

#[local] Arguments subIds : simpl never.

Lemma rerunEffects_fst changed m sdk :
  fst <$> (rerunEffects changed m sdk).2 = fst <$> m.
Proof.
  revert sdk. induction m as [|[e c] m IH]; intros sdk; simpl; [reflexivity |].
  destruct (changed e).
  - destruct (setup e sdk) as [sdk1 c1]. specialize (IH sdk1).
    destruct (rerunEffects changed m sdk1) as [sdk2 m2]. simpl in *.
    by f_equal.
  - specialize (IH sdk).
    destruct (rerunEffects changed m sdk) as [sdk2 m2]. simpl in *.
    by f_equal.
Qed.

Lemma setup_cleanupOf e sdk : cleanupOf (e, (setup e sdk).2).
Proof. destruct e; unfold cleanupOf; simpl; eauto. Qed.

Lemma rerunEffects_cleanupOf changed m sdk :
  Forall cleanupOf m -> Forall cleanupOf (rerunEffects changed m sdk).2.
Proof.
  revert sdk. induction m as [|[e c] m IH]; intros sdk Hm; simpl;
    [constructor |].
  apply Forall_cons in Hm as [Hec Hm].
  destruct (changed e).
  - pose proof (setup_cleanupOf e sdk) as Hc.
    destruct (setup e sdk) as [sdk1 c1]. specialize (IH sdk1 Hm).
    destruct (rerunEffects changed m sdk1) as [sdk2 m2]. simpl in *.
    by constructor.
  - specialize (IH sdk Hm).
    destruct (rerunEffects changed m sdk) as [sdk2 m2]. simpl in *.
    by constructor.
Qed.

Lemma setup_eventListeners e sdk a :
  a ∈ eventListeners (setup e sdk).1 <->
  a ∈ eventListeners sdk \/ actionOf e = Some a.
Proof. destruct e; simpl; set_solver. Qed.

Lemma rerunEffects_eventListeners changed m sdk a :
  a ∈ eventListeners (rerunEffects changed m sdk).1 <->
  a ∈ eventListeners sdk
  \/ exists e, e ∈ fst <$> m /\ changed e = true /\ actionOf e = Some a.
Proof.
  revert sdk. induction m as [|[e c] m IH]; intros sdk; simpl.
  - set_solver.
  - destruct (changed e) eqn:Hch.
    + pose proof (setup_eventListeners e sdk a) as Hs.
      destruct (setup e sdk) as [sdk1 c1]. specialize (IH sdk1).
      destruct (rerunEffects changed m sdk1) as [sdk2 m2]. simpl in *.
      rewrite IH, Hs. split.
      * intros [[? | ?] | (e' & ? & ? & ?)]; [by left | | ].
        -- right. exists e. set_solver.
        -- right. exists e'. set_solver.
      * intros [? | (e' & [-> | ?]%elem_of_cons & ? & ?)]; eauto 6.
    + specialize (IH sdk).
      destruct (rerunEffects changed m sdk) as [sdk2 m2]. simpl in *.
      rewrite IH. split.
      * intros [? | (e' & ? & ? & ?)]; [by left |].
        right. exists e'. set_solver.
      * intros [? | (e' & [-> | ?]%elem_of_cons & ? & ?)];
          [by left | congruence | eauto 6].
Qed.

Lemma filter_changed_cons (changed : ListenerEffect -> bool) b e c
    (m : Mounted) :
  filter (fun ec => changed ec.1 = b) ((e, c) :: m) =
  if bool_decide (changed e = b)
  then (e, c) :: filter (fun ec => changed ec.1 = b) m
  else filter (fun ec => changed ec.1 = b) m.
Proof.
  rewrite filter_cons. simpl.
  destruct (decide (changed e = b)) as [H | H].
  - by rewrite bool_decide_eq_true_2.
  - by rewrite bool_decide_eq_false_2.
Qed.

Lemma subIds_cons e c m :
  subIds ((e, c) :: m) =
  match subId c with Some i => i :: subIds m | None => subIds m end.
Proof. reflexivity. Qed.

(** What a run of an effect does to the subscriptions. *)
Lemma setup_subscriptions e sdk :
  match actionOf e with
  | Some _ =>
      nextSubscription (setup e sdk).1 = nextSubscription sdk
      /\ subscriptions (setup e sdk).1 = subscriptions sdk
      /\ subId (setup e sdk).2 = None
  | None =>
      nextSubscription (setup e sdk).1 = S (nextSubscription sdk)
      /\ subscriptions (setup e sdk).1
         = {[nextSubscription sdk]} ∪ subscriptions sdk
      /\ subId (setup e sdk).2 = Some (nextSubscription sdk)
  end.
Proof. by destruct e. Qed.

Lemma rerunEffects_subscriptions changed m sdk :
  (nextSubscription sdk <= nextSubscription (rerunEffects changed m sdk).1)%nat
  /\ (forall i, i ∈ subscriptions (rerunEffects changed m sdk).1 <->
        i ∈ subscriptions sdk
        \/ (nextSubscription sdk <= i
            < nextSubscription (rerunEffects changed m sdk).1)%nat)
  /\ (forall i, i ∈ subIds (rerunEffects changed m sdk).2 <->
        i ∈ subIds (filter (fun ec => changed ec.1 = false) m)
        \/ (nextSubscription sdk <= i
            < nextSubscription (rerunEffects changed m sdk).1)%nat).
Proof.
  revert sdk. induction m as [|[e c] m IH]; intros sdk.
  - simpl. unfold subIds. simpl. split; [lia |].
    split; intros i; rewrite ?elem_of_nil; intuition lia.
  - cbn [rerunEffects]. destruct (changed e) eqn:Hch.
    + rewrite filter_changed_cons, Hch. simpl.
      pose proof (setup_subscriptions e sdk) as Hsetup.
      destruct (setup e sdk) as [sdk1 c1]. specialize (IH sdk1).
      destruct (rerunEffects changed m sdk1) as [sdk2 m2]. simpl in *.
      destruct IH as (Hnext & Hsubs & Hids). rewrite subIds_cons.
      destruct (actionOf e); destruct Hsetup as (Hn & Hs & Hc);
        rewrite Hc; rewrite Hn in *; rewrite Hs in *.
      * split; [exact Hnext |]. split; [exact Hsubs | exact Hids].
      * split; [lia |]. split; intros i.
        -- rewrite Hsubs. set_unfold. intuition lia.
        -- rewrite elem_of_cons, Hids. intuition lia.
    + rewrite filter_changed_cons, Hch. simpl.
      specialize (IH sdk).
      destruct (rerunEffects changed m sdk) as [sdk2 m2]. simpl in *.
      destruct IH as (Hnext & Hsubs & Hids). rewrite !subIds_cons.
      split; [exact Hnext |]. split; [exact Hsubs |].
      intros i. destruct (subId c); [|exact (Hids i)].
      rewrite !elem_of_cons, Hids. tauto.
Qed.

Lemma rerunEffects_NoDup changed m sdk :
  NoDup (subIds (filter (fun ec => changed ec.1 = false) m)) ->
  (forall i, i ∈ subIds (filter (fun ec => changed ec.1 = false) m) ->
             (i < nextSubscription sdk)%nat) ->
  NoDup (subIds (rerunEffects changed m sdk).2).
Proof.
  revert sdk. induction m as [|[e c] m IH]; intros sdk.
  - intros _ _. constructor.
  - cbn [rerunEffects]. destruct (changed e) eqn:Hch.
    + rewrite filter_changed_cons, Hch. simpl. intros Hnd Hlt.
      pose proof (setup_subscriptions e sdk) as Hsetup.
      destruct (setup e sdk) as [sdk1 c1].
      pose proof (rerunEffects_subscriptions changed m sdk1)
        as (Hnext & _ & Hids).
      specialize (IH sdk1 Hnd).
      destruct (rerunEffects changed m sdk1) as [sdk2 m2]. simpl in *.
      rewrite subIds_cons.
      destruct (actionOf e); destruct Hsetup as (Hn & Hs & Hc);
        rewrite Hc; rewrite Hn in *.
      * apply IH. exact Hlt.
      * apply NoDup_cons. split.
        -- rewrite Hids. intros [Hin | ?]; [|lia].
           specialize (Hlt _ Hin). lia.
        -- apply IH. intros i Hin. specialize (Hlt _ Hin). lia.
    + rewrite filter_changed_cons, Hch. simpl.
      rewrite subIds_cons. intros Hnd Hlt.
      pose proof (rerunEffects_subscriptions changed m sdk)
        as (Hnext & _ & Hids).
      specialize (IH sdk).
      destruct (rerunEffects changed m sdk) as [sdk2 m2]. simpl in *.
      rewrite subIds_cons. destruct (subId c) as [i|].
      * apply NoDup_cons in Hnd as [Hi Hnd]. apply NoDup_cons. split.
        -- rewrite Hids. intros [Hin | ?]; [done |].
           specialize (Hlt i ltac:(left)). lia.
        -- apply IH; [exact Hnd |]. intros j Hj. apply Hlt. by right.
      * by apply IH.
Qed.

(** The cleanups of the effects that run again and those of the others
    share no subscription. *)
Lemma subIds_filter (changed : ListenerEffect -> bool) (m : Mounted) i :
  i ∈ subIds m <->
  i ∈ subIds (filter (fun ec => changed ec.1 = true) m)
  \/ i ∈ subIds (filter (fun ec => changed ec.1 = false) m).
Proof.
  induction m as [|[e c] m IH].
  - unfold subIds. simpl. rewrite elem_of_nil. tauto.
  - destruct (changed e) eqn:Hch.
    + rewrite !filter_changed_cons, Hch. simpl.
      rewrite !subIds_cons. destruct (subId c); [|exact IH].
      rewrite !elem_of_cons, IH. tauto.
    + rewrite !filter_changed_cons, Hch. simpl.
      rewrite !subIds_cons. destruct (subId c); [|exact IH].
      rewrite !elem_of_cons, IH. tauto.
Qed.

Lemma subIds_filter_NoDup (changed : ListenerEffect -> bool) (m : Mounted) :
  NoDup (subIds m) ->
  NoDup (subIds (filter (fun ec => changed ec.1 = false) m))
  /\ (forall i, i ∈ subIds (filter (fun ec => changed ec.1 = true) m) ->
       i ∉ subIds (filter (fun ec => changed ec.1 = false) m)).
Proof.
  induction m as [|[e c] m IH].
  - intros _. unfold subIds. simpl. split; [constructor |].
    intros i Hi. by apply elem_of_nil in Hi.
  - rewrite subIds_cons. intros Hnd.
    assert (Hm : NoDup (subIds m)).
    { destruct (subId c); [by apply NoDup_cons in Hnd as [_ ?] | done]. }
    destruct (IH Hm) as [IHnd IHdisj].
    destruct (changed e) eqn:Hch.
    + rewrite !filter_changed_cons, Hch. simpl.
      rewrite subIds_cons. split; [exact IHnd |].
      destruct (subId c) as [i|]; [|exact IHdisj].
      apply NoDup_cons in Hnd as [Hi _].
      intros j [-> | Hj]%elem_of_cons; [|by apply IHdisj].
      intros Hin. apply Hi. apply (subIds_filter changed). by right.
    + rewrite !filter_changed_cons, Hch. simpl.
      rewrite subIds_cons. destruct (subId c) as [i|]; [|by split].
      apply NoDup_cons in Hnd as [Hi _]. split.
      * apply NoDup_cons. split; [|exact IHnd].
        intros Hin. apply Hi. apply (subIds_filter changed). by right.
      * intros j Hj [-> | Hin]%elem_of_cons; [|by apply (IHdisj j)].
        apply Hi. apply (subIds_filter changed). by left.
Qed.

Lemma elem_of_subIds (m : Mounted) i :
  i ∈ subIds m <-> SubscriptionRemove i ∈ snd <$> m.
Proof.
  unfold subIds. rewrite list_elem_of_omap, list_elem_of_fmap. split.
  - intros ([e c] & Hin & Hc). exists (e, c). split; [|exact Hin].
    destruct c; simpl in *; congruence.
  - intros ([e c] & Hc & Hin). exists (e, c). split; [exact Hin |].
    simpl in *. by subst c.
Qed.

Lemma nextSubscription_runCleanup cs sdk :
  nextSubscription (foldl runCleanup sdk cs) = nextSubscription sdk.
Proof.
  revert sdk. induction cs as [|c cs IH]; intros sdk; simpl; [reflexivity |].
  rewrite IH. by destruct c.
Qed.

Lemma rerender_registered st changed :
  registered st -> registered (rerender st changed).
Proof.
  destruct st as [sdk m]. intros (Hof & Hl & Hnd & Hlt & Hs).
  simpl in *. unfold rerender.
  set (stale := snd <$> filter (fun ec => changed ec.1 = true) m).
  set (sdk1 := foldl runCleanup sdk stale).
  destruct (subIds_filter_NoDup changed m Hnd) as [Hkept Hdisj].
  assert (Hsubs1 : forall i, i ∈ subscriptions sdk1 <->
            i ∈ subIds (filter (fun ec => changed ec.1 = false) m)).
  { intros i. unfold sdk1. rewrite runCleanup_subscriptions, Hs.
    unfold stale. rewrite <- elem_of_subIds.
    rewrite (subIds_filter changed m i). split.
    - intros [[? | ?] ?]; [done | done].
    - intros Hin. split; [by right |]. intros Hst. by apply (Hdisj i). }
  assert (Hnext1 : nextSubscription sdk1 = nextSubscription sdk)
    by apply nextSubscription_runCleanup.
  assert (Hlt1 : forall i,
            i ∈ subIds (filter (fun ec => changed ec.1 = false) m) ->
            (i < nextSubscription sdk1)%nat).
  { intros i Hi. rewrite Hnext1. apply Hlt.
    apply (subIds_filter changed). by right. }
  pose proof (rerunEffects_subscriptions changed m sdk1)
    as (Hnext & Hsubs & Hids).
  split; [by apply rerunEffects_cleanupOf |].
  split; [|split; [|split]].
  - intros a. rewrite rerunEffects_eventListeners, rerunEffects_fst.
    unfold sdk1. rewrite runCleanup_eventListeners, Hl. split.
    + intros [[? _] | (e & ? & _ & ?)]; eauto.
    + intros (e & He & Ha).
      destruct (changed e) eqn:Hch; [right; eauto |]. left.
      split; [eauto |]. unfold stale.
      intros ([e' c'] & Hc & [Hch' Hin]%list_elem_of_filter)%list_elem_of_fmap.
      simpl in *. subst c'.
      rewrite Forall_forall in Hof. specialize (Hof _ Hin).
      unfold cleanupOf in Hof. simpl in Hof.
      destruct (actionOf e') as [a'|] eqn:Ha'.
      * injection Hof as <-.
        assert (e = e') by (destruct e, e'; simpl in *; congruence).
        congruence.
      * destruct Hof as [i ?]. discriminate.
  - by apply rerunEffects_NoDup.
  - intros i. rewrite Hids. intros [Hi | ?]; [|lia].
    specialize (Hlt1 i Hi). lia.
  - intros i. rewrite Hsubs, Hids, Hsubs1. tauto.
Qed.

Lemma mount_registered android : registered (mount android emptySDK).
Proof.
  unfold registered.
  destruct android; simpl; (split; [|split; [|split; [|split]]]).
  all: try (repeat constructor; unfold cleanupOf; simpl; eauto; fail).
  all: try (intros a; set_unfold; split;
            [intros H; repeat destruct H as [H | H]; subst;
               eauto 10 using list_elem_of_here, list_elem_of_further
            | intros (e & He & Ha); destruct e; simpl in *; naive_solver]).
  all: try (unfold subIds; simpl; repeat constructor; set_solver).
  all: try (intros i; unfold subIds; simpl; set_unfold; lia).
  all: try (intros i; unfold subIds; simpl; set_solver).
Qed.

Lemma renders_registered st renders :
  registered st -> registered (foldl rerender st renders).
Proof.
  revert st. induction renders as [|changed renders IH]; intros st H;
    simpl; [exact H |].
  apply IH. by apply rerender_registered.
Qed.

Lemma rerender_fst st changed :
  fst <$> (rerender st changed).2 = fst <$> st.2.
Proof. destruct st as [sdk m]. apply rerunEffects_fst. Qed.

Lemma renders_fst st renders :
  fst <$> (foldl rerender st renders).2 = fst <$> st.2.
Proof.
  revert st. induction renders as [|changed renders IH]; intros st; simpl;
    [reflexivity |].
  by rewrite IH, rerender_fst.
Qed.

Lemma mount_fst android :
  fst <$> (mount android emptySDK).2 = listenerEffects android.
Proof. by destruct android. Qed.

Lemma subIds_length (m : Mounted) :
  Forall cleanupOf m ->
  length (subIds m)
  = length (filter (fun e => actionOf e = None) (fst <$> m)).
Proof.
  induction m as [|[e c] m IH]; [reflexivity |].
  intros [Hec Hm]%Forall_cons. rewrite subIds_cons, fmap_cons, filter_cons.
  unfold cleanupOf in Hec. simpl in *.
  destruct (actionOf e) as [a|]; simpl.
  - subst c. simpl. by apply IH.
  - destruct Hec as [i ->]. simpl. by rewrite IH.
Qed.

(** X6.  While the component is mounted nothing it registered is lost:
    after any number of renders, whichever effects they run again, the
    SDK holds the listeners it held after mount and two live
    subscriptions, and what the pending cleanup of each effect removes
    is registered at that moment. *)
Theorem listeners_stay_registered android renders :
  let st := foldl rerender (mount android emptySDK) renders in
  eventListeners st.1 = eventListeners (mount android emptySDK).1
  /\ size (subscriptions st.1) = 2%nat
  /\ fst <$> st.2 = listenerEffects android
  /\ (forall e c, (e, c) ∈ st.2 ->
       match c with
       | RemoveEventListener a => a ∈ eventListeners st.1
       | SubscriptionRemove i => i ∈ subscriptions st.1
       end).
Proof.
  intros st.
  pose proof (renders_registered _ renders (mount_registered android))
    as (Hof & Hl & Hnd & Hlt & Hs).
  pose proof (mount_registered android) as (_ & Hl0 & _).
  assert (Hfst : fst <$> st.2 = listenerEffects android).
  { unfold st. by rewrite renders_fst, mount_fst. }
  fold st in Hof, Hl, Hnd, Hlt, Hs.
  split; [|split; [|split]].
  - apply set_eq. intros a. rewrite Hl, Hl0, Hfst, mount_fst. done.
  - assert (Heq : subscriptions st.1 = list_to_set (subIds st.2)).
    { apply set_eq. intros i. rewrite Hs. by rewrite elem_of_list_to_set. }
    rewrite Heq, size_list_to_set by exact Hnd.
    rewrite subIds_length, Hfst by exact Hof. by destruct android.
  - exact Hfst.
  - intros e c Hin. rewrite Forall_forall in Hof.
    pose proof (Hof _ Hin) as Hec. unfold cleanupOf in Hec. simpl in Hec.
    destruct c as [a | i].
    + apply Hl. exists e. split.
      * apply list_elem_of_fmap. by exists (e, RemoveEventListener a).
      * destruct (actionOf e); [congruence |]. by destruct Hec.
    + apply Hs, elem_of_subIds, list_elem_of_fmap.
      by exists (e, SubscriptionRemove i).
Qed.

Lemma actionOf_inj e e' a :
  actionOf e = Some a -> actionOf e' = Some a -> e = e'.
Proof. destruct e, e'; simpl; congruence. Qed.

(** Two mounted effects never wait to remove the same subscription. *)
Lemma subIds_inj (m : Mounted) e e' i :
  NoDup (subIds m) ->
  (e, SubscriptionRemove i) ∈ m -> (e', SubscriptionRemove i) ∈ m ->
  e = e'.
Proof.
  induction m as [|[e0 c0] m IH];
    [intros _ H; by apply elem_of_nil in H |].
  rewrite subIds_cons. intros Hnd H H'.
  assert (Hm : NoDup (subIds m)).
  { destruct (subId c0); [by apply NoDup_cons in Hnd as [_ ?] | done]. }
  assert (Hfresh : forall e1, (e0, c0) = (e1, SubscriptionRemove i) ->
            forall e2, (e2, SubscriptionRemove i) ∈ m -> False).
  { intros e1 [= <- ->] e2 Hin. simpl in Hnd.
    apply NoDup_cons in Hnd as [Hi _]. apply Hi.
    apply elem_of_subIds, list_elem_of_fmap.
    by exists (e2, SubscriptionRemove i). }
  apply elem_of_cons in H as [H | H];
    apply elem_of_cons in H' as [H' | H'].
  - congruence.
  - exfalso. by apply (Hfresh e (eq_sym H) e').
  - exfalso. by apply (Hfresh e' (eq_sym H') e).
  - by apply IH.
Qed.

Lemma mounted_subscriptions_size android renders :
  size (subscriptions
          (foldl rerender (mount android emptySDK) renders).1) = 2%nat.
Proof.
  pose proof (renders_registered _ renders (mount_registered android))
    as (Hof & _ & Hnd & _ & Hs).
  set (st := foldl rerender (mount android emptySDK) renders) in *.
  assert (Heq : subscriptions st.1 = list_to_set (subIds st.2)).
  { apply set_eq. intros i. rewrite Hs. by rewrite elem_of_list_to_set. }
  rewrite Heq, size_list_to_set by exact Hnd.
  rewrite subIds_length by exact Hof.
  unfold st. rewrite renders_fst, mount_fst. by destruct android.
Qed.

(** X7.  While the component is mounted, the cleanup of an effect removes
    the registration of that effect and of no other.  After mount and
    any renders, running the pending cleanup of one effect leaves what
    every other effect registered in place; it removes the listener of
    its own action and no subscription, or its own subscription, one of
    the two, and no listener. *)
Theorem cleanup_removes_own_registration android renders e c :
  let st := foldl rerender (mount android emptySDK) renders in
  (e, c) ∈ st.2 ->
  let sdk' := runCleanup st.1 c in
  (forall e' c', (e', c') ∈ st.2 -> e' <> e ->
     match c' with
     | RemoveEventListener a => a ∈ eventListeners sdk'
     | SubscriptionRemove i => i ∈ subscriptions sdk'
     end)
  /\ match c with
     | RemoveEventListener a =>
         actionOf e = Some a /\ (a ∉ eventListeners sdk')
         /\ subscriptions sdk' = subscriptions st.1
     | SubscriptionRemove i =>
         actionOf e = None /\ (i ∉ subscriptions sdk')
         /\ size (subscriptions sdk') = 1%nat
         /\ eventListeners sdk' = eventListeners st.1
     end.
Proof.
  intros st Hin sdk'.
  pose proof (renders_registered _ renders (mount_registered android))
    as (Hof & Hl & Hnd & _ & Hs).
  pose proof (mounted_subscriptions_size android renders) as Hsize.
  fold st in Hof, Hl, Hnd, Hs, Hsize.
  rewrite Forall_forall in Hof.
  assert (Hkind : forall e1 c1, (e1, c1) ∈ st.2 ->
            match c1 with
            | RemoveEventListener a => actionOf e1 = Some a
            | SubscriptionRemove _ => actionOf e1 = None
            end).
  { intros e1 c1 H1. pose proof (Hof _ H1) as H. unfold cleanupOf in H.
    simpl in H. destruct (actionOf e1) as [a1|].
    - by subst c1.
    - by destruct H as [i ->]. }
  assert (Hlive : forall e1 c1, (e1, c1) ∈ st.2 ->
            match c1 with
            | RemoveEventListener a => a ∈ eventListeners st.1
            | SubscriptionRemove i => i ∈ subscriptions st.1
            end).
  { intros e1 c1 H1. pose proof (Hkind _ _ H1) as H. destruct c1 as [a | i].
    - apply Hl. exists e1. split; [|exact H].
      apply list_elem_of_fmap. by exists (e1, RemoveEventListener a).
    - apply Hs, elem_of_subIds, list_elem_of_fmap.
      by exists (e1, SubscriptionRemove i). }
  pose proof (Hkind _ _ Hin) as Hc. pose proof (Hlive _ _ Hin) as Hreg.
  split.
  - intros e' c' Hin' Hne.
    pose proof (Hkind _ _ Hin') as Hc'. pose proof (Hlive _ _ Hin') as Hreg'.
    unfold sdk'.
    destruct c as [a | i], c' as [a' | i']; simpl; try done.
    + apply elem_of_difference. split; [exact Hreg' |].
      rewrite not_elem_of_singleton. intros ->.
      apply Hne. by apply (actionOf_inj _ _ a).
    + apply elem_of_difference. split; [exact Hreg' |].
      rewrite not_elem_of_singleton. intros ->.
      apply Hne. by apply (subIds_inj st.2 _ _ i).
  - unfold sdk'. destruct c as [a | i]; simpl.
    + split; [exact Hc |]. split; [|reflexivity].
      rewrite elem_of_difference, elem_of_singleton. tauto.
    + split; [exact Hc |]. split.
      { rewrite elem_of_difference, elem_of_singleton. tauto. }
      split; [|reflexivity].
      rewrite size_difference by (by apply singleton_subseteq_l).
      rewrite Hsize, size_singleton. reflexivity.
Qed.

End LifecycleMounted.

(** ** The labels of the join button *)

Section JoinButtonLabels.

Import HMSPreviewJoinButton Screens.

Lemma labelOr_nonempty label fallback :
  fallback <> "" -> labelOr label fallback <> "".
Proof.
  intros Hf. destruct label as [l|]; simpl; [|exact Hf].
  unfold orElse. case_bool_decide; done.
Qed.

(** X19.  When the user is to go live the title of the button is the
    go-live label of the layout, or 'Go Live' when the layout has none
    or an empty one, so never empty; otherwise the title is the join
    title the component was given.  The join label of the layout never
    shows on the button.  The icon is there exactly when the user is to
    go live, in the disabled style exactly when the button is disabled. *)
Theorem join_button_labels joinLayoutConfig userName shouldGoLive joinTitle
    isLoading :
  let button :=
    HMSPreviewJoinButton_component joinLayoutConfig userName shouldGoLive
      joinTitle isLoading in
  (shouldGoLive = true ->
     title button <> ""
     /\ (forall f l, joinLayoutConfig = Some f ->
          go_live_btn_label f = Some l -> l <> "" -> title button = l)
     /\ ((forall f, joinLayoutConfig = Some f ->
           go_live_btn_label f = None \/ go_live_btn_label f = Some "") ->
         title button = "Go Live"))
  /\ (shouldGoLive = false -> title button = joinTitle)
  /\ (forall f l, joinLayoutConfig = Some f ->
       HMSPreviewJoinButton_component
         (Some (mkJoinForm l (go_live_btn_label f))) userName shouldGoLive
         joinTitle isLoading = button)
  /\ (leftComponent button = None <-> shouldGoLive = false)
  /\ (leftComponent button = Some disabledLiveIcon <->
      shouldGoLive = true /\ disabled button = true).
Proof.
  intros button. subst button. unfold HMSPreviewJoinButton_component.
  split; [|split; [|split; [|split]]].
  - intros ->. simpl. split; [|split].
    + apply labelOr_nonempty. discriminate.
    + intros f l -> -> Hl. simpl. unfold orElse.
      by rewrite bool_decide_eq_false_2.
    + intros Hnone. destruct joinLayoutConfig as [f|]; [|reflexivity].
      destruct (Hnone f eq_refl) as [-> | ->]; reflexivity.
  - by intros ->.
  - by intros f l ->.
  - simpl. destruct shouldGoLive; split; try done; discriminate.
  - simpl. destruct shouldGoLive, (userNameInvalid userName || isLoading);
      simpl; split; try done; try discriminate;
      intros [? ?]; discriminate.
Qed.

End JoinButtonLabels.

(** ** More of the component on the sample data *)

Arguments deliver TerminalExceptionCodes {LayoutConfig Layout}.

Section MoreOnSampleData.

Import Sample.

Local Abbreviation onJoin :=
  (onJoinHandler selectLayoutConfigForRole selectIsHLSViewer
     selectVideoTileLayoutConfig selectChatLayoutConfig isPublishingAllowed
     selectShouldGoLive).

Local Abbreviation delivered :=
  (deliver TerminalExceptionCodes selectLayoutConfigForRole selectIsHLSViewer
     selectVideoTileLayoutConfig selectChatLayoutConfig isPublishingAllowed
     pollUpdateTypeValue selectShouldGoLive).

Local Abbreviation hmsConfig := (Attempt.mkConfig "Ana" "token").

Local Abbreviation noToken := (Attempt.mkJsError "E401" "Token expired").

Local Abbreviation previewing := (mkComponent IN_PREVIEW [] false).

(** A poll the host created. *)
Local Abbreviation hostPoll := (mkPoll "poll-2" (Some host) (Some 1000)).

Local Abbreviation storeWithHost :=
  (mkRootState None IN_MEETING (mkLayout false None) (Some host) ∅ "Ana").

(** X1, on sample input: the join is rejected for its token after the
    call returned; the screen is kept on and no alert is shown. *)
Lemma joinMeeting_attempt_witness :
  Attempt.joinMeeting (Attempt.resolved hmsConfig)
    (Attempt.returned (Attempt.rejected noToken)) (Attempt.resolved tt)
  = [Attempt.Perform (SetLoading true); Attempt.Keyboard_dismiss;
     Attempt.hmsInstance_join hmsConfig;
     Attempt.hmsInstance_setAlwaysScreenOn true].
Proof.
  destruct (joinMeeting_attempt (Attempt.resolved hmsConfig)
              (Attempt.returned (Attempt.rejected noToken))
              (Attempt.resolved tt) false)
    as (_ & _ & _ & _ & Hquiet & _).
  apply (Hquiet hmsConfig noToken tt); reflexivity.
Defined.

(** X2, on sample input: the preview is rejected for its token after the
    call returned, and no alert is shown. *)
Lemma previewMeeting_attempt_witness :
  Attempt.previewMeeting (Attempt.resolved hmsConfig)
    (Attempt.returned (Attempt.rejected noToken))
  = [Attempt.Perform (SetLoading true);
     Attempt.hmsInstance_preview hmsConfig].
Proof.
  destruct (previewMeeting_attempt (Attempt.resolved hmsConfig)
              (Attempt.returned (Attempt.rejected noToken)) false)
    as (_ & _ & _ & Hquiet & _).
  apply (Hquiet hmsConfig noToken); reflexivity.
Defined.

(** X3, on sample input: a failure while mounted resets the flag. *)
Lemma startHLSStreaming_flag_witness :
  Attempt.lastStartingHLSStream
    (Attempt.startHLSStreaming_awaited false (Attempt.rejected noToken))
  = Some false.
Proof.
  apply (proj1 (proj2 (startHLSStreaming_flag false
                         (Attempt.rejected noToken)))).
  split; [reflexivity | by exists noToken].
Defined.

(** X4, on sample input: the configuration fails in the first run that
    finds the meeting not ended, and the later run does nothing. *)
Lemma auto_init_first_run_witness :
  (AutoInit.runs false
     [AutoInit.mkRun true true false None "Ana";
      AutoInit.mkRun false false false None "Ana";
      AutoInit.mkRun false true false None "Ana"]).2 = [].
Proof.
  apply (proj2 (proj2 (auto_init_first_run _))
           (AutoInit.mkRun false false false None "Ana"));
    reflexivity.
Defined.

(** X5, on sample input: skipping the preview without a user name. *)
Lemma auto_init_join_or_preview_witness :
  (AutoInit.runs false [AutoInit.mkRun false true true None ""]).2
  = [AutoInit.updateConfig_randomUserId; AutoInit.joinMeeting].
Proof.
  destruct (auto_init_join_or_preview
              [AutoInit.mkRun false true true None ""]) as (_ & _ & H).
  apply (H (AutoInit.mkRun false true true None "")); try reflexivity.
  simpl. apply list_elem_of_further, list_elem_of_here.
Defined.

(** X6, on sample input: a render that runs the error and poll effects
    again keeps the error listener. *)
Lemma listeners_stay_registered_witness :
  ON_ERROR
    ∈ Lifecycle.eventListeners
        (foldl Lifecycle.rerender (Lifecycle.mount true Lifecycle.emptySDK)
           [fun e => match e with
                     | Lifecycle.ErrorListener | Lifecycle.PollListener => true
                     | _ => false
                     end]).1.
Proof.
  destruct (listeners_stay_registered true
              [fun e => match e with
                        | Lifecycle.ErrorListener
                        | Lifecycle.PollListener => true
                        | _ => false
                        end]) as (_ & _ & _ & H).
  apply (H Lifecycle.ErrorListener (Lifecycle.RemoveEventListener ON_ERROR)).
  apply list_elem_of_here.
Defined.

(** X7, on sample input: after a render that ran the poll effect again,
    removing the subscription of the whiteboard keeps that of the poll. *)
Lemma cleanup_removes_own_registration_witness :
  2%nat ∈ Lifecycle.subscriptions
            (Lifecycle.runCleanup
               (foldl Lifecycle.rerender
                  (Lifecycle.mount false Lifecycle.emptySDK)
                  [fun e => match e with
                            | Lifecycle.PollListener => true
                            | _ => false
                            end]).1
               (Lifecycle.SubscriptionRemove 1)).
Proof.
  destruct (cleanup_removes_own_registration false
              [fun e => match e with
                        | Lifecycle.PollListener => true
                        | _ => false
                        end]
              Lifecycle.WhiteboardListener
              (Lifecycle.SubscriptionRemove 1)) as (H & _).
  - simpl. do 4 apply list_elem_of_further. apply list_elem_of_here.
  - apply (H Lifecycle.PollListener (Lifecycle.SubscriptionRemove 2)).
    + simpl. do 3 apply list_elem_of_further. apply list_elem_of_here.
    + discriminate.
Defined.

(** X9, on sample input: an error during preview. *)
Lemma screen_after_event_witness :
  screen (delivered (mkComponent IN_PREVIEW [] true)
            (OnError "n1" trackFailure))
  = Screens.Preview false.
Proof.
  destruct (screen_after_event TerminalExceptionCodes _ _
              selectLayoutConfigForRole selectIsHLSViewer
              selectVideoTileLayoutConfig selectChatLayoutConfig
              isPublishingAllowed pollUpdateTypeValue selectShouldGoLive
              (mkComponent IN_PREVIEW [] true)) as (_ & _ & H & _).
  apply (H "n1" trackFailure). reflexivity.
Defined.

(** X10, on sample input: a join that cannot get its configuration. *)
Lemma join_attempt_then_error_witness :
  screen (attempt previewing
            (Attempt.joinMeeting (Attempt.rejected noToken)
               (Attempt.returned (Attempt.resolved tt))
               (Attempt.resolved tt)))
  = Screens.Preview true.
Proof.
  apply (join_attempt_then_error TerminalExceptionCodes _ _
           selectLayoutConfigForRole selectIsHLSViewer
           selectVideoTileLayoutConfig selectChatLayoutConfig
           isPublishingAllowed pollUpdateTypeValue selectShouldGoLive
           previewing (Attempt.rejected noToken)
           (Attempt.returned (Attempt.resolved tt))
           (Attempt.resolved tt) eq_refl).
Defined.

(** X11, on sample input: the toast of the camera failure. *)
Lemma error_texts_witness :
  "3001 Cannot access camera"
  = pretty (code trackFailure) +:+ " " +:+ description trackFailure.
Proof.
  apply (proj2 (error_texts TerminalExceptionCodes IN_PREVIEW "n1"
                  trackFailure)).
  rewrite hmsErrorHandler_non_terminal_in_preview.
  apply list_elem_of_further, list_elem_of_here.
Defined.

(** X13, on sample input: a host hears of the quiz one second after its
    start. *)
Lemma poll_notification_cases_witness :
  pollNotificationsFor "poll-1"
    (onPollUpdate pollUpdateTypeValue false (store None) 2000 quiz started)
  = 1%nat.
Proof.
  destruct (poll_notification_cases Layout isPublishingAllowed
              pollUpdateTypeValue selectShouldGoLive false (store None) 2000
              quiz started) as (H & _).
  apply (H eq_refl). split; [reflexivity |]. split; [reflexivity |].
  compute_done.
Defined.

(** X14, on sample input: the host's own poll, when it is stopped. *)
Lemma poll_timed_metadata_witness :
  SendHLSTimedMetadata 20 "poll:poll-2"
    ∈ onPollUpdate pollUpdateTypeValue false storeWithHost 2000 hostPoll
        stopped.
Proof.
  apply (poll_timed_metadata Layout pollUpdateTypeValue selectShouldGoLive).
  split; [reflexivity |]. split; [reflexivity |].
  exists host, host. done.
Defined.

(** X15, on sample input: the quiz and a poll with its id. *)
Lemma poll_notification_id_injective_witness :
  pollId quiz = pollId (mkPoll "poll-1" (Some host) None).
Proof.
  apply (poll_notification_id_injective pollUpdateTypeValue quiz
           (mkPoll "poll-1" (Some host) None) started).
  reflexivity.
Defined.

(** X16, on sample input: without a chat configuration the chat view is
    not opened. *)
Lemma join_opens_chat_witness :
  ~ Dispatch (SET_SHOW_CHAT_VIEW true) ∈ onJoin (store None) meetingRoom.
Proof.
  intros H.
  apply (join_opens_chat _ _ selectLayoutConfigForRole selectIsHLSViewer
           selectVideoTileLayoutConfig selectChatLayoutConfig
           isPublishingAllowed selectShouldGoLive) in H
    as (_ & chatConfig & Hnone & _).
  discriminate.
Defined.

(** X17, on sample input: the host joins alone, tile not inset. *)
Lemma meeting_after_first_join_witness :
  Screens.autoPip
    (Screens.Meeting false false
       (peerTrackNodesAfter [] (onJoin (store None) meetingRoom)))
  = true.
Proof.
  exact (proj1 (meeting_after_first_join _ _ selectLayoutConfigForRole
                  selectIsHLSViewer selectVideoTileLayoutConfig
                  selectChatLayoutConfig isPublishingAllowed
                  selectShouldGoLive (store None) meetingRoom false false)).
Defined.

(** X18, on sample input: the host hears of the quiz once. *)
Lemma poll_non_viewer_once_witness :
  pollNotificationsFor "poll-1"
    (pollUpdates pollUpdateTypeValue ∅
       [mkPollUpdate false (store None) 2000 quiz started;
        mkPollUpdate false (store None) 3000 quiz started]) = 1%nat.
Proof.
  apply (poll_non_viewer_once Layout pollUpdateTypeValue ∅
           (mkPollUpdate false (store None) 2000 quiz started)
           [mkPollUpdate false (store None) 3000 quiz started]);
    first [reflexivity | compute_done].
Defined.

(** X19, on sample input: no layout, going live. *)
Lemma join_button_labels_witness :
  HMSPreviewJoinButton.title
    (Screens.HMSPreviewJoinButton_component None "Ana" true "Join" false)
  = "Go Live".
Proof.
  destruct (join_button_labels None "Ana" true "Join" false) as (H & _).
  destruct (H eq_refl) as (_ & _ & Hdefault).
  apply Hdefault. intros f. discriminate.
Defined.

End MoreOnSampleData.
